(** * Polymarket CLOB authentication in Go: EIP-712 signing, wallet helpers
      and HMAC request signing

    A shallow embedding of package [auth] (the EIP-712 file and [hmac.go], which
    also holds the wallet helpers) and of the small library routines the package
    calls: Keccak-256, [encoding/hex], [hexutil], [common.Address],
    [big.Int.FillBytes], [fmt]'s [%d] and [%q], [base64.StdEncoding],
    [strings.ReplaceAll] and [json.Marshal] on plain values.  The
    elliptic-curve routines of go-ethereum's [crypto] package, HMAC-SHA256
    and the base64 decoder stay parameters of the functions that call them;
    a model of the decoder and the public keys of the curve follow for the
    properties that need them.

    Go strings and byte slices are both [list byte].  A call that returns
    [(value, error)] returns a [result]; a run-time panic is a result of its
    own, so that "does not panic" can be stated. *)

From Stdlib Require Import Strings.String Strings.Ascii Strings.Byte.
From Stdlib Require Import ZArith List Lia Bool.
Import ListNotations.
Import Corelib.Init.Datatypes.
Local Open Scope list_scope.
Local Open Scope Z_scope.

(** ** Bytes and slices *)

Definition byte_to_Z (b : byte) : Z := Z.of_N (Byte.to_N b).

(** Conversion to [uint8]: the value modulo 256. *)
Definition byte_of_Z (z : Z) : byte :=
  match Byte.of_N (Z.to_N (z mod 256)) with
  | Some b => b
  | None => x00
  end.

(** [b += k] on a [uint8], with Go's wrap-around. *)
Definition add8 (b : byte) (k : Z) : byte := byte_of_Z (byte_to_Z b + k).

(** [b -= k] on a [uint8]. *)
Definition sub8 (b : byte) (k : Z) : byte := byte_of_Z (byte_to_Z b - k).

Definition byte_eqb (a b : byte) : bool := Byte.eqb a b.

Definition bytes_eqb (a b : list byte) : bool :=
  if list_eq_dec Byte.byte_eq_dec a b then true else false.

(** [[]byte("...")] *)
Definition str (s : string) : list byte := list_byte_of_string s.

(** [s[i] = v] for [i < len(s)]. *)
Definition set_nth (s : list byte) (i : nat) (v : byte) : list byte :=
  firstn i s ++ v :: skipn (S i) s.

(** Go's built-in [copy(dst, src)]: the first [min(len dst, len src)] elements
    of [dst] are overwritten. *)
Definition copy (dst src : list byte) : list byte :=
  firstn (length dst) src ++ skipn (length src) dst.

(** [copy(dst[off:], src)] seen from [dst]. *)
Definition copy_at (dst : list byte) (off : nat) (src : list byte) : list byte :=
  firstn off dst ++ copy (skipn off dst) src.

(** ** Errors and results *)

Inductive error : Type :=
| New (msg : string)                 (* errors.New, fmt.Errorf without a verb *)
| Wrap (msg : string) (e : error)    (* fmt.Errorf("msg: %w", e) *)
| hex_ErrLength                      (* encoding/hex: odd length hex string *)
| hex_InvalidByteError (b : byte).   (* encoding/hex: invalid byte *)

Inductive result (A : Type) : Type :=
| Ok (a : A)
| Err (e : error)
| Panic (msg : string).
Arguments Ok {A} a.
Arguments Err {A} e.
Arguments Panic {A} msg.

Definition bind {A B : Type} (r : result A) (k : A -> result B) : result B :=
  match r with
  | Ok a => k a
  | Err e => Err e
  | Panic m => Panic m
  end.

(** [if err != nil { return ..., fmt.Errorf("msg: %w", err) }] *)
Definition wrapErr {A : Type} (msg : string) (r : result A) : result A :=
  match r with
  | Err e => Err (Wrap msg e)
  | _ => r
  end.

Notation "x <- e ;; k" := (bind e (fun x => k))
  (at level 61, e at next level, right associativity).

(** ** Keccak-256 (the legacy padding go-ethereum uses) *)

Module Keccak.

Definition mask64 : Z := Z.ones 64.

Definition rotl64 (x n : Z) : Z :=
  Z.land (Z.lor (Z.shiftl x n) (Z.shiftr x (64 - n))) mask64.

Definition RC : list Z :=
  [0x0000000000000001; 0x0000000000008082; 0x800000000000808A; 0x8000000080008000;
   0x000000000000808B; 0x0000000080000001; 0x8000000080008081; 0x8000000000008009;
   0x000000000000008A; 0x0000000000000088; 0x0000000080008009; 0x000000008000000A;
   0x000000008000808B; 0x800000000000008B; 0x8000000000008089; 0x8000000000008003;
   0x8000000000008002; 0x8000000000000080; 0x000000000000800A; 0x800000008000000A;
   0x8000000080008081; 0x8000000000008080; 0x0000000080000001; 0x8000000080008008].

(** Rotation offsets, for the lane at index [x + 5 * y]. *)
Definition rotc : list Z :=
  [0; 1; 62; 28; 27;  36; 44; 6; 55; 20;  3; 10; 43; 25; 39;
   41; 45; 15; 21; 8;  18; 2; 61; 56; 14].

Definition lane (A : list Z) (x y : nat) : Z := nth (x mod 5 + 5 * y)%nat A 0.

Definition theta (A : list Z) : list Z :=
  let C := map (fun x => Z.lxor (lane A x 0) (Z.lxor (lane A x 1)
             (Z.lxor (lane A x 2) (Z.lxor (lane A x 3) (lane A x 4))))) (seq 0 5) in
  let D := map (fun x => Z.lxor (nth ((x + 4) mod 5)%nat C 0)
                                (rotl64 (nth ((x + 1) mod 5)%nat C 0) 1)) (seq 0 5) in
  map (fun i => Z.lxor (nth i A 0) (nth (i mod 5)%nat D 0)) (seq 0 25).

(** The lane written to [(X, Y)] is the rotated lane read from
    [((X + 3 Y) mod 5, X)]. *)
Definition rho_pi (A : list Z) : list Z :=
  map (fun j => let X := (j mod 5)%nat in
                let Y := (j / 5)%nat in
                let s := ((X + 3 * Y) mod 5 + 5 * X)%nat in
                rotl64 (nth s A 0) (nth s rotc 0)) (seq 0 25).

Definition chi (B : list Z) : list Z :=
  map (fun i => let x := (i mod 5)%nat in
                let y := (i / 5)%nat in
                Z.lxor (lane B x y)
                  (Z.land (Z.lxor (lane B (x + 1) y) mask64) (lane B (x + 2) y)))
      (seq 0 25).

Definition iota (rc : Z) (A : list Z) : list Z :=
  match A with
  | [] => []
  | a :: A' => Z.lxor a rc :: A'
  end.

Definition round (A : list Z) (rc : Z) : list Z :=
  iota rc (chi (rho_pi (theta A))).

Definition keccakF1600 (A : list Z) : list Z := fold_left round RC A.

(** 1088-bit rate: 136 bytes, 17 lanes. *)
Definition rate : nat := 136.

Definition load64 (l : list byte) : Z :=
  fold_right (fun b acc => byte_to_Z b + 256 * acc) 0 l.

Definition store64 (z : Z) : list byte :=
  map (fun i => byte_of_Z (Z.shiftr z (8 * Z.of_nat i))) (seq 0 8).

Definition xorIn (A : list Z) (blk : list byte) : list Z :=
  map (fun i => if (i <? 17)%nat
                then Z.lxor (nth i A 0) (load64 (firstn 8 (skipn (8 * i) blk)))
                else nth i A 0) (seq 0 25).

Fixpoint absorb (n : nat) (A : list Z) (m : list byte) : list Z :=
  match n with
  | O => A
  | S n' => absorb n' (keccakF1600 (xorIn A (firstn rate m))) (skipn rate m)
  end.

Definition pad (len : nat) : list byte :=
  let p := (rate - len mod rate)%nat in
  if (p =? 1)%nat then [x81] else x01 :: repeat x00 (p - 2) ++ [x80].

Definition Keccak256 (data : list byte) : list byte :=
  let m := data ++ pad (length data) in
  let A := absorb (length m / rate) (repeat 0 25) m in
  flat_map (fun i => store64 (nth i A 0)) (seq 0 4).

End Keccak.

(** [crypto.Keccak256] and [crypto.Keccak256Hash]: the hash of the
    concatenation of the arguments. *)
Definition Keccak256 (data : list byte) : list byte := Keccak.Keccak256 data.

(** ** encoding/hex *)

Module hex.

Definition hextable : list byte := str "0123456789abcdef".

Definition EncodeToString (src : list byte) : list byte :=
  flat_map (fun v => [nth (Z.to_nat (Z.shiftr (byte_to_Z v) 4)) hextable x00;
                      nth (Z.to_nat (Z.land (byte_to_Z v) 0x0f)) hextable x00]) src.

(** The reverse table: [None] stands for the entry 0xff of an invalid
    character. *)
Definition fromHexChar (c : byte) : option Z :=
  let n := byte_to_Z c in
  if (48 <=? n) && (n <=? 57) then Some (n - 48)
  else if (97 <=? n) && (n <=? 102) then Some (n - 97 + 10)
  else if (65 <=? n) && (n <=? 70) then Some (n - 65 + 10)
  else None.

(** [hex.DecodeString]: the bytes decoded before the first error, and the
    error. *)
Fixpoint DecodeString (src : list byte) : list byte * option error :=
  match src with
  | [] => ([], None)
  | [p] =>
      match fromHexChar p with
      | None => ([], Some (hex_InvalidByteError p))
      | Some _ => ([], Some hex_ErrLength)
      end
  | p :: q :: rest =>
      match fromHexChar p, fromHexChar q with
      | None, _ => ([], Some (hex_InvalidByteError p))
      | Some _, None => ([], Some (hex_InvalidByteError q))
      | Some a, Some b =>
          let '(bs, e) := DecodeString rest in
          (byte_of_Z (Z.lor (Z.shiftl a 4) b) :: bs, e)
      end
  end.

End hex.

(** ** go-ethereum's common/hexutil *)

Module hexutil.

Definition ErrEmptyString : error := New "empty hex string".
Definition ErrSyntax : error := New "invalid hex string".
Definition ErrMissingPrefix : error := New "hex string without 0x prefix".
Definition ErrOddLength : error := New "hex string of odd length".

Definition has0xPrefix (input : list byte) : bool :=
  match input with
  | a :: b :: _ => byte_eqb a x30 && (byte_eqb b x78 || byte_eqb b x58)
  | _ => false
  end.

Definition mapError (e : error) : error :=
  match e with
  | hex_ErrLength => ErrOddLength
  | hex_InvalidByteError _ => ErrSyntax
  | _ => e
  end.

Definition Encode (b : list byte) : list byte :=
  str "0x" ++ hex.EncodeToString b.

Definition Decode (input : list byte) : result (list byte) :=
  match input with
  | [] => Err ErrEmptyString
  | _ =>
      if negb (has0xPrefix input) then Err ErrMissingPrefix
      else
        match hex.DecodeString (skipn 2 input) with
        | (b, None) => Ok b
        | (_, Some e) => Err (mapError e)
        end
  end.

End hexutil.

(** ** math/big *)

Module big.

(** The [n]-byte big-endian form of [z], for [0 <= z < 256 ^ n]. *)
Fixpoint be_bytes (n : nat) (z : Z) : list byte :=
  match n with
  | O => []
  | S n' => be_bytes n' (Z.shiftr z 8) ++ [byte_of_Z z]
  end.

(** [x.FillBytes(make([]byte, n))]: the absolute value of [x] as a
    zero-extended big-endian slice; it panics when the value does not fit. *)
Definition FillBytes (x : Z) (n : nat) : result (list byte) :=
  if Z.abs x <? 256 ^ Z.of_nat n then Ok (be_bytes n (Z.abs x))
  else Panic "math/big: buffer too small to fit value".

End big.

(** ** unicode/utf8 *)

Module utf8.

Definition RuneError : Z := 0xFFFD.
Definition RuneSelf : Z := 0x80.
Definition UTFMax : nat := 4.

(** The table [first] with its [acceptRanges], for a byte from [RuneSelf] on:
    the length of the sequence the byte starts and the least and greatest
    second byte; [None] is the entry [xx] of a byte that starts none. *)
Definition first (b : Z) : option (nat * Z * Z) :=
  if b <? 0xC2 then None
  else if b <? 0xE0 then Some (2%nat, 0x80, 0xBF)
  else if b =? 0xE0 then Some (3%nat, 0xA0, 0xBF)
  else if b =? 0xED then Some (3%nat, 0x80, 0x9F)
  else if b <? 0xF0 then Some (3%nat, 0x80, 0xBF)
  else if b =? 0xF0 then Some (4%nat, 0x90, 0xBF)
  else if b <? 0xF4 then Some (4%nat, 0x80, 0xBF)
  else if b =? 0xF4 then Some (4%nat, 0x80, 0x8F)
  else None.

(** A continuation byte: between [locb] and [hicb]. *)
Definition isContinuation (b : Z) : bool := (0x80 <=? b) && (b <=? 0xBF).

(** [utf8.DecodeRuneInString]: the rune at the head of [s] and its width in
    bytes; a byte that starts no well-formed sequence is [RuneError] of
    width 1. *)
Definition DecodeRuneInString (s : list byte) : Z * nat :=
  match s with
  | [] => (RuneError, 0%nat)
  | c0 :: _ =>
      let s0 := byte_to_Z c0 in
      if s0 <? RuneSelf then (s0, 1%nat)
      else
        match first s0 with
        | None => (RuneError, 1%nat)
        | Some (sz, lo, hi) =>
            if (length s <? sz)%nat then (RuneError, 1%nat)
            else
              let s1 := byte_to_Z (nth 1 s x00) in
              if (s1 <? lo) || (hi <? s1) then (RuneError, 1%nat)
              else if (sz <=? 2)%nat
              then (Z.lor (Z.shiftl (Z.land s0 0x1F) 6) (Z.land s1 0x3F), 2%nat)
              else
                let s2 := byte_to_Z (nth 2 s x00) in
                if negb (isContinuation s2) then (RuneError, 1%nat)
                else if (sz <=? 3)%nat
                then (Z.lor (Z.lor (Z.shiftl (Z.land s0 0x0F) 12)
                                   (Z.shiftl (Z.land s1 0x3F) 6))
                            (Z.land s2 0x3F), 3%nat)
                else
                  let s3 := byte_to_Z (nth 3 s x00) in
                  if negb (isContinuation s3) then (RuneError, 1%nat)
                  else (Z.lor (Z.lor (Z.lor (Z.shiftl (Z.land s0 0x07) 18)
                                            (Z.shiftl (Z.land s1 0x3F) 12))
                                     (Z.shiftl (Z.land s2 0x3F) 6))
                              (Z.land s3 0x3F), 4%nat)
        end
  end.

(** [utf8.AppendRune] to an empty slice, on the runes of one or two bytes. *)
Definition AppendRune (r : Z) : list byte :=
  if r <=? 0x7F then [byte_of_Z r]
  else [byte_of_Z (Z.lor 0xC0 (Z.shiftr r 6));
        byte_of_Z (Z.lor 0x80 (Z.land r 0x3F))].

End utf8.

(** ** strconv *)

Module strconv.

Definition lowerhex : list byte := str "0123456789abcdef".

(** [strconv.IsPrint] on Latin-1, the runes a byte can hold: ASCII from the
    space up to the tilde, and the upper half from the inverted exclamation
    mark on, the soft hyphen left out. *)
Definition IsPrint (r : Z) : bool :=
  if (0x20 <=? r) && (r <? 0x7F) then true
  else if 0xA1 <=? r then negb (r =? 0xAD)
  else false.

(** [appendEscapedRune] for the single quote, on the rune of a byte. *)
Definition appendEscapedRune (c : byte) : list byte :=
  let r := byte_to_Z c in
  if (r =? 39) || (r =? 92) then [x5c; c]
  else if IsPrint r then utf8.AppendRune r
  else if r =? 7 then str "\a"
  else if r =? 8 then str "\b"
  else if r =? 12 then str "\f"
  else if r =? 10 then str "\n"
  else if r =? 13 then str "\r"
  else if r =? 9 then str "\t"
  else if r =? 11 then str "\v"
  else if (r <? 32) || (r =? 0x7f)
  then str "\x" ++ [nth (Z.to_nat (Z.shiftr r 4)) lowerhex x00;
                    nth (Z.to_nat (Z.land r 0xF)) lowerhex x00]
  else str "\u" ++ map (fun s => nth (Z.to_nat (Z.land (Z.shiftr r s) 0xF))
                                     lowerhex x00) [12; 8; 4; 0].

(** [strconv.AppendQuoteRune] to an empty slice, on the rune of a byte: the
    character between single quotes, escaped as in a Go character
    literal. *)
Definition AppendQuoteRune (c : byte) : list byte :=
  x27 :: appendEscapedRune c ++ [x27].

End strconv.

(** ** fmt *)

Module fmt.

(** The decimal digits of [n >= 0], most significant first; [fuel] bounds the
    number of digits. *)
Fixpoint fmtInteger (fuel : nat) (n : Z) (acc : list byte) : list byte :=
  match fuel with
  | O => acc
  | S fuel' =>
      let acc' := byte_of_Z (48 + n mod 10) :: acc in
      if n <? 10 then acc' else fmtInteger fuel' (n / 10) acc'
  end.

(** [fmt.Sprintf("%d", n)] for a 64-bit integer: at most 20 digits. *)
Definition Sprintf_d (n : Z) : list byte :=
  if n <? 0 then str "-" ++ fmtInteger 20 (- n) [] else fmtInteger 20 n [].

(** [fmt.Sprintf("%q", c)] for a byte: the quoted character. *)
Definition Sprintf_q (c : byte) : list byte := strconv.AppendQuoteRune c.

End fmt.

(** ** go-ethereum's common.Address *)

Module common.

Definition AddressLength : nat := 20.

(** [Address] is [[20]byte]; the model keeps the bytes and every constructor
    below returns exactly twenty. *)
Definition Address : Type := list byte.

(** [Hash] is [[32]byte]. *)
Definition Hash : Type := list byte.

(** [BytesToAddress]: [b] right-aligned in the array, cropped from the left
    when it is longer. *)
Definition BytesToAddress (b : list byte) : Address :=
  let b := if (AddressLength <? length b)%nat
           then skipn (length b - AddressLength) b else b in
  copy_at (repeat x00 AddressLength) (AddressLength - length b) b.

Definition Hex2Bytes (s : list byte) : list byte := fst (hex.DecodeString s).

Definition FromHex (s : list byte) : list byte :=
  let s := if hexutil.has0xPrefix s then skipn 2 s else s in
  let s := if Nat.odd (length s) then x30 :: s else s in
  Hex2Bytes s.

Definition HexToAddress (s : list byte) : Address := BytesToAddress (FromHex s).

(** The loop of [checksumHex] from index [i] on: [buf] is what is left of the
    lower-case digits, [i] counts from the first digit. *)
Fixpoint checksumLoop (hash : list byte) (i : nat) (buf : list byte) : list byte :=
  match buf with
  | [] => []
  | c :: buf' =>
      let hashByte := byte_to_Z (nth (i / 2) hash x00) in
      let hashByte := if Nat.even i then Z.shiftr hashByte 4
                      else Z.land hashByte 0xf in
      (if (57 <? byte_to_Z c) && (7 <? hashByte) then sub8 c 32 else c)
        :: checksumLoop hash (S i) buf'
  end.

(** [Address.Hex]: the EIP-55 form. *)
Definition Hex (a : Address) : list byte :=
  let digits := hex.EncodeToString a in
  str "0x" ++ checksumLoop (Keccak256 digits) 0 digits.

End common.

(** ** encoding/base64 *)

Module base64.

Definition encodeStd : list byte :=
  str "ABCDEFGHIJKLMNOPQRSTUVWXYZabcdefghijklmnopqrstuvwxyz0123456789+/".

Definition encodeURL : list byte :=
  str "ABCDEFGHIJKLMNOPQRSTUVWXYZabcdefghijklmnopqrstuvwxyz0123456789-_".

Definition StdPadding : byte := x3d.

Definition sextet (alphabet : list byte) (val : Z) (shift : Z) : byte :=
  nth (Z.to_nat (Z.land (Z.shiftr val shift) 0x3F)) alphabet x00.

(** [Encoding.EncodeToString] of a padded encoding with the given alphabet. *)
Fixpoint EncodeToString (alphabet : list byte) (src : list byte) : list byte :=
  match src with
  | [] => []
  | [a] =>
      let val := Z.shiftl (byte_to_Z a) 16 in
      [sextet alphabet val 18; sextet alphabet val 12; StdPadding; StdPadding]
  | [a; b] =>
      let val := Z.lor (Z.shiftl (byte_to_Z a) 16) (Z.shiftl (byte_to_Z b) 8) in
      [sextet alphabet val 18; sextet alphabet val 12; sextet alphabet val 6;
       StdPadding]
  | a :: b :: c :: rest =>
      let val := Z.lor (Z.lor (Z.shiftl (byte_to_Z a) 16)
                              (Z.shiftl (byte_to_Z b) 8)) (byte_to_Z c) in
      sextet alphabet val 18 :: sextet alphabet val 12 :: sextet alphabet val 6
        :: sextet alphabet val 0 :: EncodeToString alphabet rest
  end.

Definition StdEncoding_EncodeToString : list byte -> list byte :=
  EncodeToString encodeStd.

Definition URLEncoding_EncodeToString : list byte -> list byte :=
  EncodeToString encodeURL.

End base64.

(** ** strings *)

Module strings.

Fixpoint HasPrefix (s prefix : list byte) {struct prefix} : bool :=
  match prefix, s with
  | [], _ => true
  | p :: prefix', c :: s' => byte_eqb p c && HasPrefix s' prefix'
  | _ :: _, [] => false
  end.

(** The scan of [ReplaceAll] for a non-empty [old]: [skip] counts the bytes
    of a match that are still to be passed over. *)
Fixpoint replaceFrom (old new : list byte) (skip : nat) (s : list byte) : list byte :=
  match s with
  | [] => []
  | c :: s' =>
      match skip with
      | S k => replaceFrom old new k s'
      | O =>
          if HasPrefix s old
          then new ++ replaceFrom old new (length old - 1) s'
          else c :: replaceFrom old new 0 s'
      end
  end.

(** [strings.ReplaceAll(s, old, new)] with [old] not empty: every
    non-overlapping instance, left to right. *)
Definition ReplaceAll (s old new : list byte) : list byte :=
  replaceFrom old new 0 s.

End strings.

(** ** encoding/json on plain values *)

Module json.

(** The values an [interface{}] message holds in this model: strings,
    unsigned integers, slices, and structs with their fields in declaration
    order under their JSON names. *)
#[warnings="-register-all"]
Inductive Value : Type :=
| VString (s : list byte)
| VUint (n : Z)
| VArray (xs : list Value)
| VStruct (fields : list (list byte * Value)).

Definition hexDigit (n : Z) : byte := nth (Z.to_nat n) hex.hextable x00.

(** One byte below [utf8.RuneSelf] of a string literal, with the HTML-safe
    escaping [Marshal] uses. *)
Definition appendByte (b : byte) : list byte :=
  let n := byte_to_Z b in
  if (n =? 34) || (n =? 92) then [x5c; b]
  else if n =? 8 then str "\b"
  else if n =? 12 then str "\f"
  else if n =? 10 then str "\n"
  else if n =? 13 then str "\r"
  else if n =? 9 then str "\t"
  else if (n <? 32) || (n =? 60) || (n =? 62) || (n =? 38)
       then str "\u00" ++ [hexDigit (Z.shiftr n 4); hexDigit (Z.land n 0xF)]
  else [b].

(** The loop of [appendString] from the byte at the head of [src] on.  A
    byte below [utf8.RuneSelf] is written by [appendByte]; otherwise the rune
    at that place is decoded: a byte that starts no well-formed sequence is
    written as the escape of U+FFFD and the loop moves on by one byte, U+2028
    and U+2029 are written as escapes, any other rune is copied.  [skip]
    counts the bytes still to pass over of a rune already written
    ([i += size]). *)
Fixpoint appendRunes (skip : nat) (src : list byte) : list byte :=
  match src with
  | [] => []
  | b :: rest =>
      match skip with
      | S skip' => appendRunes skip' rest
      | O =>
          if byte_to_Z b <? utf8.RuneSelf
          then appendByte b ++ appendRunes 0 rest
          else
            let '(c, size) :=
              utf8.DecodeRuneInString (firstn utf8.UTFMax src) in
            if (c =? utf8.RuneError) && (size =? 1)%nat
            then str "\ufffd" ++ appendRunes 0 rest
            else if (c =? 0x2028) || (c =? 0x2029)
            then str "\u202" ++ [hexDigit (Z.land c 0xF)]
                   ++ appendRunes (size - 1) rest
            else firstn size src ++ appendRunes (size - 1) rest
      end
  end.

Definition appendString (s : list byte) : list byte :=
  x22 :: appendRunes 0 s ++ [x22].

Fixpoint reflectValue (v : Value) : list byte :=
  match v with
  | VString s => appendString s
  | VUint n => fmt.Sprintf_d n
  | VArray xs =>
      str "[" ++
      (fix elems (first : bool) (xs : list Value) : list byte :=
         match xs with
         | [] => []
         | x :: xs' =>
             (if first then [] else str ",") ++ reflectValue x ++ elems false xs'
         end) true xs ++ str "]"
  | VStruct fields =>
      str "{" ++
      (fix members (first : bool) (fs : list (list byte * Value)) : list byte :=
         match fs with
         | [] => []
         | (name, x) :: fs' =>
             (if first then [] else str ",") ++ appendString name ++ str ":"
               ++ reflectValue x ++ members false fs'
         end) true fields ++ str "}"
  end.

(** [json.Marshal]: on these values the encoder has no error to report. *)
Definition Marshal (v : Value) : result (list byte) := Ok (reflectValue v).

End json.

(** ** The elliptic-curve routines of go-ethereum's crypto package *)

(** Keys and the ECDSA routines over secp256k1 are taken as given.
    [PublicKeyOf k] is the field [k.PublicKey]; [FromECDSAPub] is the 65-byte
    uncompressed encoding; [Sign] and [SigToPub] take the 32-byte digest
    first. *)
Class Crypto : Type := {
  PrivateKey : Type;
  PublicKey : Type;
  PublicKeyOf : PrivateKey -> PublicKey;
  FromECDSAPub : PublicKey -> list byte;
  Sign : list byte -> PrivateKey -> result (list byte);
  SigToPub : list byte -> list byte -> result PublicKey
}.

(** [crypto.PubkeyToAddress]: the last twenty bytes of the Keccak-256 hash of
    the encoding without its leading format byte. *)
Definition PubkeyToAddress `{Crypto} (p : PublicKey) : common.Address :=
  let pubBytes := FromECDSAPub p in
  common.BytesToAddress (skipn 12 (Keccak256 (skipn 1 pubBytes))).

(** ** Package auth: EIP-712 *)

Definition MSG_TO_SIGN : list byte :=
  str "This message attests that I control the given wallet".

Module EIP712Domain.
Record t : Type := mk {
  Name : list byte;
  Version : list byte;
  ChainID : Z;                       (* int64 *)
  Salt : list byte;
  VerifyingContract : list byte
}.
End EIP712Domain.

Module EIP712Type.
Record t : Type := mk {
  Name : list byte;
  Type_ : list byte
}.
End EIP712Type.

Module ClobAuthData.
Record t : Type := mk {
  Address : list byte;
  Timestamp : list byte;
  Nonce : Z;                         (* uint64 *)
  Message : list byte
}.
End ClobAuthData.

Module TypedData.
Record t : Type := mk {
  Types : list (list byte * list EIP712Type.t);   (* map[string][]EIP712Type *)
  PrimaryType : list byte;
  Domain : EIP712Domain.t;
  Message : json.Value                            (* interface{} *)
}.
End TypedData.

(** [types[name]]: the zero value, a nil slice, when the key is absent. *)
Fixpoint lookupType (types : list (list byte * list EIP712Type.t)) (name : list byte)
  : list EIP712Type.t :=
  match types with
  | [] => []
  | (k, v) :: types' => if bytes_eqb k name then v else lookupType types' name
  end.

Definition in_int64 (z : Z) : Prop := - 2 ^ 63 <= z < 2 ^ 63.
Definition in_uint64 (z : Z) : Prop := 0 <= z < 2 ^ 64.

(** [getDomainSeparator] *)
Definition getDomainSeparator (domain : EIP712Domain.t) : result common.Hash :=
  let typeHash :=
    Keccak256 (str "EIP712Domain(string name,string version,uint256 chainId)") in
  let nameHash := Keccak256 (EIP712Domain.Name domain) in
  let versionHash := Keccak256 (EIP712Domain.Version domain) in
  let chainId := EIP712Domain.ChainID domain in
  chainIdBytes <- big.FillBytes chainId 32 ;;
  let data := typeHash ++ nameHash in
  let data := data ++ versionHash in
  let data := data ++ chainIdBytes in
  Ok (Keccak256 data).

(** [getTypeHash]: the argument is not read. *)
Definition getTypeHash (types : list EIP712Type.t) : result common.Hash :=
  let typeString :=
    str "ClobAuth(address address,string timestamp,uint256 nonce,string message)" in
  Ok (Keccak256 typeString).

(** [encodeClobAuthData] *)
Definition encodeClobAuthData (data : ClobAuthData.t) : result (list byte) :=
  let address := common.HexToAddress (ClobAuthData.Address data) in
  let nonce := ClobAuthData.Nonce data in
  let addressBytes := copy_at (repeat x00 32) 12 address in
  let timestampHash := Keccak256 (ClobAuthData.Timestamp data) in
  nonceBytes <- big.FillBytes nonce 32 ;;
  let messageHash := Keccak256 (ClobAuthData.Message data) in
  let encodedData := addressBytes ++ timestampHash in
  let encodedData := encodedData ++ nonceBytes in
  let encodedData := encodedData ++ messageHash in
  Ok encodedData.

(** [getMessageHash] *)
Definition getMessageHash (typedData : TypedData.t) : result common.Hash :=
  messageBytes <- wrapErr "failed to marshal message"
                    (json.Marshal (TypedData.Message typedData)) ;;
  Ok (Keccak256 messageBytes).

(** [getTypedDataHash] *)
Definition getTypedDataHash (typedData : TypedData.t) : result common.Hash :=
  domainSeparator <- getDomainSeparator (TypedData.Domain typedData) ;;
  messageHash <- getMessageHash typedData ;;
  let finalHash := Keccak256 (concat [[x19; x01]; domainSeparator; messageHash]) in
  Ok finalHash.

Section EIP712.
Context `{Crypto}.

(** The part of [BuildClobEip712Signature] before the call of [crypto.Sign]:
    the value of its local [hash]. *)
Definition clobAuthHash (privateKey : PrivateKey) (chainID timestamp nonce : Z)
  : result common.Hash :=
  let address := common.Hex (PubkeyToAddress (PublicKeyOf privateKey)) in
  let domain := EIP712Domain.mk (str "ClobAuthDomain") (str "1") chainID [] [] in
  let types :=
    [(str "ClobAuth",
      [EIP712Type.mk (str "address") (str "address");
       EIP712Type.mk (str "timestamp") (str "string");
       EIP712Type.mk (str "nonce") (str "uint256");
       EIP712Type.mk (str "message") (str "string")])] in
  let message :=
    ClobAuthData.mk address (fmt.Sprintf_d timestamp) nonce MSG_TO_SIGN in
  domainSeparator <- wrapErr "failed to get domain separator"
                       (getDomainSeparator domain) ;;
  typeHash <- wrapErr "failed to get type hash"
                (getTypeHash (lookupType types (str "ClobAuth"))) ;;
  encodeData <- wrapErr "failed to encode data" (encodeClobAuthData message) ;;
  let structHash := Keccak256 (typeHash ++ encodeData) in
  let hash := Keccak256 (([x19; x01] ++ domainSeparator) ++ structHash) in
  Ok hash.

(** [if signature[64] < 27 { signature[64] += 27 }]; indexing a slice that is
    too short panics. *)
Definition adjustV (signature : list byte) : result (list byte) :=
  match nth_error signature 64 with
  | None => Panic "index out of range [64]"
  | Some v =>
      if byte_to_Z v <? 27 then Ok (set_nth signature 64 (add8 v 27))
      else Ok signature
  end.

(** [BuildClobEip712Signature] *)
Definition BuildClobEip712Signature (privateKey : PrivateKey)
    (chainID timestamp nonce : Z) : result (list byte) :=
  hash <- clobAuthHash privateKey chainID timestamp nonce ;;
  signature <- wrapErr "failed to sign hash" (Sign hash privateKey) ;;
  signature <- adjustV signature ;;
  let signatureHex := hexutil.Encode signature in
  Ok signatureHex.

(** [SignTypedData] *)
Definition SignTypedData (privateKey : PrivateKey) (typedData : TypedData.t)
  : result (list byte) :=
  hash <- wrapErr "failed to get typed data hash" (getTypedDataHash typedData) ;;
  signature <- wrapErr "failed to sign hash" (Sign hash privateKey) ;;
  let signatureHex := hexutil.Encode signature in
  Ok signatureHex.

(** [if sig[64] != 27 && sig[64] != 28 { sig[64] += 27 }], after the length
    check. *)
Definition adjustRecoveryByte (sig : list byte) : list byte :=
  let v := nth 64 sig x00 in
  if negb (byte_to_Z v =? 27) && negb (byte_to_Z v =? 28)
  then set_nth sig 64 (add8 v 27)
  else sig.

(** [RecoverAddress] *)
Definition RecoverAddress (hash : common.Hash) (signature : list byte)
  : result common.Address :=
  sig <- wrapErr "failed to decode signature" (hexutil.Decode signature) ;;
  if negb (length sig =? 65)%nat
  then Err (New "signature must be 65 bytes long")
  else
    let sig := adjustRecoveryByte sig in
    pubkey <- wrapErr "failed to recover public key" (SigToPub hash sig) ;;
    let recoveredAddress := PubkeyToAddress pubkey in
    Ok recoveredAddress.

End EIP712.

(** ** Package auth: the wallet *)

Section WalletOps.
Context `{Crypto}.

Record Wallet : Type := mkWallet {
  privateKey : PrivateKey;
  address : common.Address
}.

(** [NewWalletFromPrivateKey] *)
Definition NewWalletFromPrivateKey (privateKey : PrivateKey) : Wallet :=
  let address := PubkeyToAddress (PublicKeyOf privateKey) in
  mkWallet privateKey address.

(** [GetAddress] *)
Definition GetAddress (w : Wallet) : common.Address := address w.

(** [GetAddressHex] *)
Definition GetAddressHex (w : Wallet) : list byte := common.Hex (address w).

(** [GetPrivateKey] *)
Definition GetPrivateKey (w : Wallet) : PrivateKey := privateKey w.

(** [SignMessage] *)
Definition SignMessage (w : Wallet) (message : list byte) : result (list byte) :=
  let hash := Keccak256 message in
  signature <- wrapErr "failed to sign message" (Sign hash (privateKey w)) ;;
  let signatureHex := hexutil.Encode signature in
  Ok signatureHex.

(** [SignHash] *)
Definition SignHash (w : Wallet) (hash : common.Hash) : result (list byte) :=
  signature <- wrapErr "failed to sign hash" (Sign hash (privateKey w)) ;;
  let signatureHex := hexutil.Encode signature in
  Ok signatureHex.

(** [RecoverAddressFromMessage] *)
Definition RecoverAddressFromMessage (message signature : list byte)
  : result common.Address :=
  sig <- wrapErr "failed to decode signature" (hexutil.Decode signature) ;;
  if negb (length sig =? 65)%nat
  then Err (New "signature must be 65 bytes long")
  else
    let hash := Keccak256 message in
    let sig := adjustRecoveryByte sig in
    pubkey <- wrapErr "failed to recover public key" (SigToPub hash sig) ;;
    let recoveredAddress := PubkeyToAddress pubkey in
    Ok recoveredAddress.

(** [VerifyMessageSignature] *)
Definition VerifyMessageSignature (message signature : list byte)
    (expectedAddress : common.Address) : result bool :=
  recoveredAddress <- RecoverAddressFromMessage message signature ;;
  Ok (bytes_eqb recoveredAddress expectedAddress).

End WalletOps.

(** ** Package auth: HMAC request signing *)

Section Hmac.

(** [hmac.New(sha256.New, key)], [Write(message)], [Sum(nil)]. *)
Variable hmac_sha256 : list byte -> list byte -> list byte.

(** [base64.URLEncoding.DecodeString]: the bytes and the error, if any. *)
Variable URLEncoding_DecodeString : list byte -> list byte * option error.

(** [BuildMessage]; a nil [body] is [None]. *)
Definition BuildMessage (timestamp : Z) (method requestPath : list byte)
    (body : option (list byte)) : list byte :=
  let message := fmt.Sprintf_d timestamp ++ method ++ requestPath in
  match body with
  | Some b => message ++ b
  | None => message
  end.

(** [BuildPolyHmacSignature] *)
Definition BuildPolyHmacSignature (secret : list byte) (timestamp : Z)
    (method requestPath : list byte) (body : option (list byte)) : list byte :=
  let message := fmt.Sprintf_d timestamp ++ method ++ requestPath in
  let message := match body with
                 | Some b => message ++ b
                 | None => message
                 end in
  let base64Secret := match URLEncoding_DecodeString secret with
                      | (decoded, None) => decoded
                      | (_, Some _) => secret
                      end in
  let signature := hmac_sha256 base64Secret message in
  let sig := base64.StdEncoding_EncodeToString signature in
  let sigUrlSafe :=
    strings.ReplaceAll (strings.ReplaceAll sig (str "+") (str "-"))
                       (str "/") (str "_") in
  sigUrlSafe.

(** [VerifyHmacSignature]; [hmac.Equal] is equality of the two byte strings. *)
Definition VerifyHmacSignature (secret : list byte) (timestamp : Z)
    (method requestPath : list byte) (body : option (list byte))
    (signature : list byte) : bool :=
  let expectedSig :=
    BuildPolyHmacSignature secret timestamp method requestPath body in
  bytes_eqb expectedSig signature.

End Hmac.

(** ** The layouts the specification names *)

(** The 32-byte big-endian form of an unsigned integer, digit by digit. *)
Definition be32 (n : Z) : list byte :=
  map (fun i => byte_of_Z (n / 256 ^ (31 - Z.of_nat i))) (seq 0 32).

Definition EIP712Domain_typeString : list byte :=
  str "EIP712Domain(string name,string version,uint256 chainId)".

Definition ClobAuth_typeString : list byte :=
  str "ClobAuth(address address,string timestamp,uint256 nonce,string message)".

(** keccak256(typeHash || keccak256(name) || keccak256(version) || be32(chainId)) *)
Definition domainSeparatorOf (name version : list byte) (chainId : Z) : list byte :=
  Keccak256 (Keccak256 EIP712Domain_typeString ++ Keccak256 name
             ++ Keccak256 version ++ be32 chainId).

(** keccak256(typeHash || enc(address) || enc(timestamp) || enc(nonce) || enc(message)) *)
Definition clobAuthStructHashOf (address timestamp : list byte) (nonce : Z)
    (message : list byte) : list byte :=
  Keccak256 (Keccak256 ClobAuth_typeString ++ (repeat x00 12 ++ address)
             ++ Keccak256 timestamp ++ be32 nonce ++ Keccak256 message).

(** keccak256(0x19 0x01 || domainSeparator || structHash) *)
Definition signingDigestOf (domainSeparator structHash : list byte) : list byte :=
  Keccak256 ([x19; x01] ++ domainSeparator ++ structHash).

(** The struct hash of a [ClobAuthData] as the canonical path computes it
    (its steps [getTypeHash], [encodeClobAuthData] and the hash of both). *)
Definition clobAuthStructHash (message : ClobAuthData.t) : result common.Hash :=
  typeHash <- getTypeHash [] ;;
  encodeData <- encodeClobAuthData message ;;
  Ok (Keccak256 (typeHash ++ encodeData)).

(** A [ClobAuthData] as the value [json.Marshal] sees: the fields in
    declaration order under their tags. *)
Definition ClobAuthData_value (d : ClobAuthData.t) : json.Value :=
  json.VStruct
    [(str "address", json.VString (ClobAuthData.Address d));
     (str "timestamp", json.VString (ClobAuthData.Timestamp d));
     (str "nonce", json.VUint (ClobAuthData.Nonce d));
     (str "message", json.VString (ClobAuthData.Message d))].

(** The translation of the tag's alphabet: [+] to [-], [/] to [_]. *)
Definition urlSafeChar (c : byte) : byte :=
  if byte_eqb c x2b then x2d else if byte_eqb c x2f then x5f else c.

(** The key of the MAC: the decoded secret, or the secret itself when it does
    not decode. *)
Definition hmacKey (decode : list byte -> list byte * option error)
    (secret : list byte) : list byte :=
  match decode secret with
  | (decoded, None) => decoded
  | (_, Some _) => secret
  end.

(** decimalString(timestamp) || method || path || body, the body left out when
    absent. *)
Definition canonicalMessage (timestamp : Z) (method path : list byte)
    (body : option (list byte)) : list byte :=
  fmt.Sprintf_d timestamp ++ method ++ path
    ++ match body with Some b => b | None => [] end.

Definition toLower (c : byte) : byte :=
  if (65 <=? byte_to_Z c) && (byte_to_Z c <=? 90) then add8 c 32 else c.

Definition toUpper (c : byte) : byte :=
  if (97 <=? byte_to_Z c) && (byte_to_Z c <=? 122) then sub8 c 32 else c.

(** One of the letters a to f. *)
Definition isHexLetter (c : byte) : bool :=
  (97 <=? byte_to_Z c) && (byte_to_Z c <=? 102).

(** Hex digit [i] of a hash, the high digit of each byte first. *)
Definition hashDigit (hash : list byte) (i : nat) : Z :=
  let b := byte_to_Z (nth (i / 2) hash x00) in
  if Nat.even i then b / 16 else b mod 16.

(** Character [i] of the EIP-55 form of the lower-case hex digits [digits]:
    a letter is printed in upper case when hex digit [i] of the Keccak-256
    hash of [digits] is 8 or more (bit [4 * i] of the hash is set); digits
    and the other letters are printed as they are. *)
Definition eip55Char (digits : list byte) (i : nat) : byte :=
  let c := nth i digits x00 in
  if isHexLetter c && (8 <=? hashDigit (Keccak256 digits) i)
  then toUpper c else c.

Definition isLowerHexDigit (c : byte) : bool :=
  ((48 <=? byte_to_Z c) && (byte_to_Z c <=? 57))
  || ((97 <=? byte_to_Z c) && (byte_to_Z c <=? 102)).

(** Two characters that stand for the same hex digit. *)
Definition sameHexDigit (c c' : byte) : Prop :=
  exists v, hex.fromHexChar c = Some v /\ hex.fromHexChar c' = Some v.

(** Negation of an [int64], with its wrap-around at the least value. *)
Definition neg64 (c : Z) : Z := (- c + 2 ^ 63) mod 2 ^ 64 - 2 ^ 63.

(** The call returns a hex string that decodes to 65 bytes whose last byte is
    [v1] or [v2]. *)
Definition returnsSignatureWithV (r : result (list byte)) (v1 v2 : byte) : Prop :=
  exists s sig,
    r = Ok s /\ hexutil.Decode s = Ok sig /\ length sig = 65%nat
    /\ (nth 64 sig x00 = v1 \/ nth 64 sig x00 = v2).

(** ** What the package relies on in the curve routines *)

Section Contracts.
Context `{Crypto}.

(** [crypto.Sign] returns [R || S || V], 65 bytes, with [V] 0 or 1. *)
Definition Sign_format : Prop :=
  forall hash key sig,
    Sign hash key = Ok sig ->
    length sig = 65%nat /\ (nth 64 sig x00 = x00 \/ nth 64 sig x00 = x01).

(** [crypto.SigToPub] reads the last byte as the recovery id: a last byte of
    27 or 28 is refused ("invalid signature recovery id"). *)
Definition SigToPub_recovery_id : Prop :=
  forall hash sig,
    length sig = 65%nat ->
    nth 64 sig x00 = x1b \/ nth 64 sig x00 = x1c ->
    exists e, SigToPub hash sig = Err e.

End Contracts.

(** ** A stand-in for the curve routines, to run the package on inputs *)

(** Keys are numbers, a signature is the digest, the key and a zero recovery
    id, and recovery reads the key back; lengths, the recovery id and its
    check are as in the library. *)
Definition stubCrypto : Crypto := {|
  PrivateKey := Z;
  PublicKey := Z;
  PublicKeyOf := fun k => k;
  FromECDSAPub := fun p => x04 :: big.be_bytes 64 p;
  Sign := fun hash k =>
    if (length hash =? 32)%nat then Ok (hash ++ big.be_bytes 32 k ++ [x00])
    else Err (New "hash is required to be exactly 32 bytes");
  SigToPub := fun hash sig =>
    if negb (length sig =? 65)%nat then Err (New "invalid signature length")
    else if 4 <=? byte_to_Z (nth 64 sig x00)
         then Err (New "invalid signature recovery id")
    else if bytes_eqb (firstn 32 sig) hash
         then Ok (fold_left (fun acc b => 256 * acc + byte_to_Z b)
                            (firstn 32 (skipn 32 sig)) 0)
    else Err (New "recovery failed")
|}.

(** The address of EIP-55's first test vector. *)
Definition sampleAddress : common.Address :=
  [x5a; xae; xb6; x05; x3f; x3e; x94; xc9; xb9; xa0;
   x9f; x33; x66; x94; x35; xe7; xef; x1b; xea; xed].

Definition sampleWallet : @Wallet stubCrypto := @mkWallet stubCrypto 1 sampleAddress.

Definition sampleClobAuth : ClobAuthData.t :=
  ClobAuthData.mk (common.Hex sampleAddress) (str "1700000000") 0 MSG_TO_SIGN.

Definition sampleTypedData : TypedData.t :=
  TypedData.mk
    [(str "ClobAuth",
      [EIP712Type.mk (str "address") (str "address");
       EIP712Type.mk (str "timestamp") (str "string");
       EIP712Type.mk (str "nonce") (str "uint256");
       EIP712Type.mk (str "message") (str "string")])]
    (str "ClobAuth")
    (EIP712Domain.mk (str "ClobAuthDomain") (str "1") 137 [] [])
    (ClobAuthData_value sampleClobAuth).

(** A signature of 64 bytes, in hex. *)
Definition shortSignatureHex : list byte := hexutil.Encode (repeat x00 64).

(** ** More of go-ethereum's common and crypto packages *)

(** [common.isHexCharacter] *)
Definition isHexCharacter (c : byte) : bool :=
  let n := byte_to_Z c in
  ((48 <=? n) && (n <=? 57)) || ((97 <=? n) && (n <=? 102))
  || ((65 <=? n) && (n <=? 70)).

(** [common.isHex]: an even number of hex characters. *)
Definition isHex (s : list byte) : bool :=
  if Nat.odd (length s) then false else forallb isHexCharacter s.

(** [common.IsHexAddress] *)
Definition IsHexAddress (s : list byte) : bool :=
  let s := if hexutil.has0xPrefix s then skipn 2 s else s in
  (length s =? 2 * common.AddressLength)%nat && isHex s.

(** The conversions between a private key and its 32 bytes, taken as given
    like the other curve routines: [crypto.ToECDSA] checks the length and the
    range of the scalar and derives the public key, [crypto.FromECDSA] writes
    the scalar on 32 bytes. *)
Class KeyCodec `{Crypto} : Type := {
  ToECDSA : list byte -> result PrivateKey;
  FromECDSA : PrivateKey -> list byte
}.

(** [fmt.Errorf("invalid hex character %q in private key", byte(byteErr))] *)
Definition invalidHexCharacter (byteErr : byte) : error :=
  New ("invalid hex character "
       ++ string_of_list_byte (fmt.Sprintf_q byteErr)
       ++ " in private key")%string.

(** [crypto.HexToECDSA] *)
Definition HexToECDSA `{KeyCodec} (hexkey : list byte) : result PrivateKey :=
  match hex.DecodeString hexkey with
  | (_, Some (hex_InvalidByteError byteErr)) =>
      Err (invalidHexCharacter byteErr)
  | (_, Some _) => Err (New "invalid hex data for private key")
  | (b, None) => ToECDSA b
  end.

(** ** The base64 decoder *)

Module base64d.

(** [base64.CorruptInputError]; in Go it carries the offset of the bad
    byte. *)
Definition CorruptInputError : error := New "illegal base64 data".

Fixpoint indexOf (alphabet : list byte) (c : byte) (i : Z) : option Z :=
  match alphabet with
  | [] => None
  | a :: alphabet' =>
      if byte_eqb a c then Some i else indexOf alphabet' c (i + 1)
  end.

(** The decode map of an alphabet: [None] is the entry 0xff. *)
Definition decodeMap (alphabet : list byte) (c : byte) : option Z :=
  indexOf alphabet c 0.

Definition isNewline (c : byte) : bool := byte_eqb c x0a || byte_eqb c x0d.

Fixpoint skipNewlines (src : list byte) : list byte :=
  match src with
  | [] => []
  | c :: src' => if isNewline c then skipNewlines src' else src
  end.

(** The three bytes of a quantum of four 6-bit values. *)
Definition quantum (d0 d1 d2 d3 : Z) : list byte :=
  let val := Z.lor (Z.lor (Z.lor (Z.shiftl d0 18) (Z.shiftl d1 12))
                          (Z.shiftl d2 6)) d3 in
  [byte_of_Z (Z.shiftr val 16); byte_of_Z (Z.shiftr val 8); byte_of_Z val].

(** [Encoding.Decode] of a padded, non-strict encoding, quantum by quantum:
    [dbuf] holds the values read so far in the current quantum.  Line breaks
    are passed over wherever they stand; padding may only end the last
    quantum.  The result is the bytes written and the error. *)
Fixpoint decode (alphabet : list byte) (dbuf : list Z) (src : list byte)
  : list byte * option error :=
  match src with
  | [] =>
      match dbuf with
      | [] => ([], None)
      | _ => ([], Some CorruptInputError)
      end
  | c :: rest =>
      match decodeMap alphabet c with
      | Some out =>
          match dbuf with
          | [d0; d1; d2] =>
              let '(bs, e) := decode alphabet [] rest in
              (quantum d0 d1 d2 out ++ bs, e)
          | _ => decode alphabet (dbuf ++ [out]) rest
          end
      | None =>
          if isNewline c then decode alphabet dbuf rest
          else if negb (byte_eqb c base64.StdPadding)
               then ([], Some CorruptInputError)
          else
            match dbuf with
            | [d0; d1] =>
                match skipNewlines rest with
                | [] => ([], Some CorruptInputError)
                | c' :: rest' =>
                    if negb (byte_eqb c' base64.StdPadding)
                    then ([], Some CorruptInputError)
                    else
                      match skipNewlines rest' with
                      | [] => (firstn 1 (quantum d0 d1 0 0), None)
                      | _ => (firstn 1 (quantum d0 d1 0 0),
                              Some CorruptInputError)
                      end
                end
            | [d0; d1; d2] =>
                match skipNewlines rest with
                | [] => (firstn 2 (quantum d0 d1 d2 0), None)
                | _ => (firstn 2 (quantum d0 d1 d2 0), Some CorruptInputError)
                end
            | _ => ([], Some CorruptInputError)
            end
      end
  end.

(** [base64.URLEncoding.DecodeString] *)
Definition URLEncoding_DecodeString (s : list byte) : list byte * option error :=
  decode base64.encodeURL [] s.

End base64d.

(** ** Package auth: keys and addresses in hex *)

(** [if len(privateKeyHex) >= 2 && privateKeyHex[:2] == "0x"
      { privateKeyHex = privateKeyHex[2:] }] *)
Definition trim0x (privateKeyHex : list byte) : list byte :=
  if (2 <=? length privateKeyHex)%nat
     && bytes_eqb (firstn 2 privateKeyHex) (str "0x")
  then skipn 2 privateKeyHex
  else privateKeyHex.

Section WalletKeys.
Context `{KeyCodec}.

(** [NewWalletFromHex] *)
Definition NewWalletFromHex (privateKeyHex : list byte) : result Wallet :=
  let privateKeyHex := trim0x privateKeyHex in
  privateKey <- wrapErr "failed to parse private key"
                  (HexToECDSA privateKeyHex) ;;
  Ok (NewWalletFromPrivateKey privateKey).

(** [NewRandomWallet]; [generated] is what [crypto.GenerateKey] returned. *)
Definition NewRandomWallet (generated : result PrivateKey) : result Wallet :=
  privateKey <- wrapErr "failed to generate private key" generated ;;
  Ok (NewWalletFromPrivateKey privateKey).

(** [PrivateKeyToHex] *)
Definition PrivateKeyToHex (privateKey : PrivateKey) : list byte :=
  hexutil.Encode (FromECDSA privateKey).

(** [HexToPrivateKey] *)
Definition HexToPrivateKey (privateKeyHex : list byte) : result PrivateKey :=
  let privateKeyHex := trim0x privateKeyHex in
  HexToECDSA privateKeyHex.

(** [ValidatePrivateKey]: [Ok tt] is a nil error. *)
Definition ValidatePrivateKey (privateKeyHex : list byte) : result unit :=
  _ <- HexToPrivateKey privateKeyHex ;;
  Ok tt.

End WalletKeys.

(** [ValidateAddress]: [Ok tt] is a nil error; the address it parses is
    dropped. *)
Definition ValidateAddress (addressHex : list byte) : result unit :=
  if negb (IsHexAddress addressHex) then Err (New "invalid address format")
  else
    let _ := common.HexToAddress addressHex in
    Ok tt.

(** ** Shapes of the texts the package reads *)

(** 0x or 0X and then exactly [n] hex digits of either case. *)
Definition isPrefixedHex (n : nat) (s : list byte) : bool :=
  hexutil.has0xPrefix s && (length (skipn 2 s) =? n)%nat
  && forallb isHexCharacter (skipn 2 s).

(** A character of the URL-safe base64 alphabet. *)
Definition isURLChar (c : byte) : bool :=
  let n := byte_to_Z c in
  ((65 <=? n) && (n <=? 90)) || ((97 <=? n) && (n <=? 122))
  || ((48 <=? n) && (n <=? 57)) || (n =? 45) || (n =? 95).

(** A stand-in for the key conversions on the stand-in keys: the scalar on 32
    bytes, refused when the length is not 32 or the scalar is zero. *)
Definition stub_ToECDSA (d : list byte) : result Z :=
  if negb (length d =? 32)%nat then Err (New "invalid length, need 256 bits")
  else
    let k := fold_left (fun acc b => 256 * acc + byte_to_Z b) d 0 in
    if k <=? 0 then Err (New "invalid private key, zero or negative")
    else Ok k.

Definition stubKeyCodec : @KeyCodec stubCrypto := {|
  ToECDSA := stub_ToECDSA : list byte -> result (@PrivateKey stubCrypto);
  FromECDSA := fun k : @PrivateKey stubCrypto => big.be_bytes 32 k
|}.

(** ** The keys of secp256k1 *)

(** The curve [y^2 = x^3 + 7] over the prime field, its base point, and the
    multiples of the base point that are the public keys. *)
Module secp256k1.

Definition P : Z := 2 ^ 256 - 2 ^ 32 - 977.

Definition N : Z :=
  0xFFFFFFFFFFFFFFFFFFFFFFFFFFFFFFFEBAAEDCE6AF48A03BBFD25E8CD0364141.

Definition Gx : Z :=
  0x79BE667EF9DCBBAC55A06295CE870B07029BFCDB2DCE28D959F2815B16F81798.

Definition Gy : Z :=
  0x483ADA7726A3C4655DA4FBFC0E1108A8FD17B448A68554199C47D08FFB10D4B8.

(** A point in affine coordinates; [None] is the point at infinity. *)
Definition Point : Type := option (Z * Z).

(** Euclid's algorithm on [r0] and [r1], carrying the coefficients [t0] and
    [t1] of the number to invert; [fuel] bounds the number of divisions. *)
Fixpoint euclid (fuel : nat) (r0 r1 t0 t1 : Z) : Z :=
  match fuel with
  | O => t0
  | S fuel' =>
      if r1 =? 0 then t0
      else
        let q := r0 / r1 in
        euclid fuel' r1 (r0 - q * r1) t1 (t0 - q * t1)
  end.

(** The inverse modulo [P]; the algorithm divides fewer than twice as many
    times as the number has binary digits. *)
Definition inv (a : Z) : Z :=
  euclid (2 * Z.to_nat (Z.log2 (a mod P)) + 5) P (a mod P) 0 1 mod P.

Definition Add (p q : Point) : Point :=
  match p, q with
  | None, _ => q
  | _, None => p
  | Some (x1, y1), Some (x2, y2) =>
      if (x1 =? x2) && ((y1 + y2) mod P =? 0) then None
      else
        let l := if x1 =? x2 then (3 * x1 * x1 * inv (2 * y1)) mod P
                 else ((y2 - y1) * inv (x2 - x1)) mod P in
        let x3 := (Z.square l - x1 - x2) mod P in
        Some (x3, (l * (x1 - x3) - y1) mod P)
  end.

Fixpoint mult (k : positive) (p : Point) : Point :=
  match k with
  | xH => p
  | xO k' => let d := mult k' p in Add d d
  | xI k' => let d := mult k' p in Add (Add d d) p
  end.

(** [ScalarBaseMult]: the multiple [k] of the base point. *)
Definition ScalarBaseMult (k : Z) : Point :=
  match k with
  | Zpos k' => mult k' (Some (Gx, Gy))
  | _ => None
  end.

End secp256k1.

(** The curve routines with the public keys of the curve: a private key is
    its scalar, its public key the multiple of the base point, written as
    0x04 and the two coordinates on 32 bytes each.  Signing and recovery are
    those of the stand-in above. *)
Definition curveCrypto : Crypto := {|
  PrivateKey := Z;
  PublicKey := secp256k1.Point;
  PublicKeyOf := secp256k1.ScalarBaseMult;
  FromECDSAPub := fun p =>
    match p with
    | Some (x, y) => x04 :: big.be_bytes 32 x ++ big.be_bytes 32 y
    | None => []
    end;
  Sign := fun hash k =>
    if (length hash =? 32)%nat then Ok (hash ++ big.be_bytes 32 k ++ [x00])
    else Err (New "hash is required to be exactly 32 bytes");
  SigToPub := fun hash sig =>
    if negb (length sig =? 65)%nat then Err (New "invalid signature length")
    else if 4 <=? byte_to_Z (nth 64 sig x00)
         then Err (New "invalid signature recovery id")
    else if bytes_eqb (firstn 32 sig) hash
         then Ok (secp256k1.ScalarBaseMult
                    (fold_left (fun acc b => 256 * acc + byte_to_Z b)
                               (firstn 32 (skipn 32 sig)) 0))
    else Err (New "recovery failed")
|}.

(** [crypto.ToECDSA] and [crypto.FromECDSA] on these keys: 32 bytes, a scalar
    from 1 to [N - 1]. *)
Definition curve_ToECDSA (d : list byte) : result Z :=
  if negb (8 * length d =? 256)%nat
  then Err (New "invalid length, need 256 bits")
  else
    let D := fold_left (fun acc b => 256 * acc + byte_to_Z b) d 0 in
    if secp256k1.N <=? D then Err (New "invalid private key, >=N")
    else if D <=? 0 then Err (New "invalid private key, zero or negative")
    else Ok D.

Definition curveKeyCodec : @KeyCodec curveCrypto := {|
  ToECDSA := curve_ToECDSA : list byte -> result (@PrivateKey curveCrypto);
  FromECDSA := fun k : @PrivateKey curveCrypto => big.be_bytes 32 k
|}.

(** The text of the private key 1. *)
Definition keyOneHex : list byte :=
  str "0x0000000000000000000000000000000000000000000000000000000000000001".

(** The wallet of the private key 1. *)
Definition keyOneWallet : @Wallet curveCrypto :=
  @NewWalletFromPrivateKey curveCrypto 1.

(** A stand-in for HMAC-SHA256 with its output length. *)
Definition stubHmac (key message : list byte) : list byte :=
  Keccak256 (key ++ x00 :: message).

(** The bytes a body contributes to the message: none when it is nil. *)
Definition bodyBytes (body : option (list byte)) : list byte :=
  match body with
  | Some b => b
  | None => []
  end.

(** A byte that the URL-safe decoder neither reads nor passes over: not in
    the alphabet, not the padding, not a line break. *)
Definition isForeignChar (c : byte) : bool :=
  negb (isURLChar c) && negb (byte_eqb c base64.StdPadding)
  && negb (base64d.isNewline c).

(** * Proofs *)

(** ** The library models on known values *)

Example Keccak256_empty :
  hexutil.Encode (Keccak256 [])
  = str "0xc5d2460186f7233c927e7db2dcc703c0e500b653ca82273b7bfad8045d85a470".
Proof. vm_compute; reflexivity. Qed.

Example Keccak256_domain_type :
  hexutil.Encode (Keccak256 EIP712Domain_typeString)
  = str "0xc2f8787176b8ac6bf7215b4adcc1e069bf4ab82d9ab1df05a57a91d425935b6e".
Proof. vm_compute; reflexivity. Qed.

Example Keccak256_two_blocks :
  hexutil.Encode (Keccak256 (repeat x61 137))
  = str "0xd869f639c7046b4929fc92a4d988a8b22c55fbadb802c0c66ebcd484f1915f39".
Proof. vm_compute; reflexivity. Qed.

Example Hex_eip55_vector :
  common.Hex sampleAddress = str "0x5aAeb6053F3E94C9b9A09f33669435E7Ef1BeAed".
Proof. vm_compute; reflexivity. Qed.

Example Sprintf_d_values :
  fmt.Sprintf_d 1700000000 = str "1700000000"
  /\ fmt.Sprintf_d 0 = str "0"
  /\ fmt.Sprintf_d (-5) = str "-5"
  /\ fmt.Sprintf_d (2 ^ 63 - 1) = str "9223372036854775807"
  /\ fmt.Sprintf_d (- 2 ^ 63) = str "-9223372036854775808".
Proof. repeat split; vm_compute; reflexivity. Qed.

Example Sprintf_q_values :
  fmt.Sprintf_q x58 = str "'X'"
  /\ fmt.Sprintf_q x20 = str "' '"
  /\ fmt.Sprintf_q x27 = str "'\''"
  /\ fmt.Sprintf_q x5c = str "'\\'"
  /\ fmt.Sprintf_q x0a = str "'\n'"
  /\ fmt.Sprintf_q x00 = str "'\x00'"
  /\ fmt.Sprintf_q x7f = str "'\x7f'"
  /\ fmt.Sprintf_q x80 = str "'\u0080'"
  /\ fmt.Sprintf_q xad = str "'\u00ad'"
  /\ fmt.Sprintf_q xe9 = [x27; xc3; xa9; x27].
Proof. repeat split; vm_compute; reflexivity. Qed.

(** In a JSON string the HTML characters and the two line separators are
    escaped, other well-formed UTF-8 is copied, and every byte that starts no
    well-formed sequence becomes U+FFFD. *)
Example appendString_values :
  json.appendString (str "a<b>&c\") = x22 :: str "a\u003cb\u003e\u0026c\\" ++ [x22]
  /\ json.appendString [xc3; xa9] = [x22; xc3; xa9; x22]
  /\ json.appendString [xf0; x9f; x98; x80] = [x22; xf0; x9f; x98; x80; x22]
  /\ json.appendString [x41; xe2; x80; xa8; x42] = x22 :: str "A\u2028B" ++ [x22]
  /\ json.appendString [xe2; x80; xa9] = x22 :: str "\u2029" ++ [x22]
  /\ json.appendString [xff; x41] = x22 :: str "\ufffdA" ++ [x22]
  /\ json.appendString [xe2; x80] = x22 :: str "\ufffd\ufffd" ++ [x22]
  /\ json.appendString [xed; xa0; x80]
     = x22 :: str "\ufffd\ufffd\ufffd" ++ [x22]
  /\ json.appendString [xef; xbf; xbd] = [x22; xef; xbf; xbd; x22].
Proof. repeat split; vm_compute; reflexivity. Qed.

(** The addresses of the private keys 1 and 2. *)
Example curve_addresses :
  common.Hex (@PubkeyToAddress curveCrypto (@PublicKeyOf curveCrypto 1))
  = str "0x7E5F4552091A69125d5DfCb7b8C2659029395Bdf"
  /\ common.Hex (@PubkeyToAddress curveCrypto (@PublicKeyOf curveCrypto 2))
     = str "0x2B5AD5c4795c026514f8317c7a215E218DcCD6cF".
Proof. split; vm_compute; reflexivity. Qed.

Example StdEncoding_values :
  base64.StdEncoding_EncodeToString (str "somesecret") = str "c29tZXNlY3JldA=="
  /\ base64.StdEncoding_EncodeToString (str ">>>???>>") = str "Pj4+Pz8/Pj4="
  /\ base64.URLEncoding_EncodeToString (str ">>>???>>") = str "Pj4-Pz8_Pj4=".
Proof. repeat split; vm_compute; reflexivity. Qed.

Example ReplaceAll_values :
  strings.ReplaceAll (str "abcabcab") (str "bc") (str "X") = str "aXaXab"
  /\ strings.ReplaceAll (str "aaa") (str "aa") (str "b") = str "ba".
Proof. repeat split; vm_compute; reflexivity. Qed.

Example hexutil_Decode_errors :
  hexutil.Decode [] = Err hexutil.ErrEmptyString
  /\ hexutil.Decode (str "abcd") = Err hexutil.ErrMissingPrefix
  /\ hexutil.Decode (str "0xabc") = Err hexutil.ErrOddLength
  /\ hexutil.Decode (str "0xzz") = Err hexutil.ErrSyntax
  /\ hexutil.Decode (str "0x") = Ok []
  /\ hexutil.Decode (str "0X1bFf") = Ok [x1b; xff].
Proof. repeat split; vm_compute; reflexivity. Qed.

Example FillBytes_values :
  big.FillBytes 137 32 = Ok (repeat x00 31 ++ [x89])
  /\ big.FillBytes (-137) 32 = Ok (repeat x00 31 ++ [x89])
  /\ big.FillBytes 256 1 = Panic "math/big: buffer too small to fit value".
Proof. repeat split; vm_compute; reflexivity. Qed.

(** The adjustment of [RecoverAddress] is an addition on a [uint8]: 0 and 1
    become 27 and 28, 27 and 28 stay, 229 wraps around to 0. *)
Example adjustRecoveryByte_values :
  nth 64 (adjustRecoveryByte (repeat x00 64 ++ [x00])) x00 = x1b
  /\ nth 64 (adjustRecoveryByte (repeat x00 64 ++ [x01])) x00 = x1c
  /\ nth 64 (adjustRecoveryByte (repeat x00 64 ++ [x1b])) x00 = x1b
  /\ nth 64 (adjustRecoveryByte (repeat x00 64 ++ [x1c])) x00 = x1c
  /\ nth 64 (adjustRecoveryByte (repeat x00 64 ++ [xe5])) x00 = x00.
Proof. repeat split; vm_compute; reflexivity. Qed.

(** ** Bytes *)

Lemma byte_of_to_Z (b : byte) : byte_of_Z (byte_to_Z b) = b.
Proof. destruct b; reflexivity. Qed.

Lemma byte_to_Z_range (b : byte) : 0 <= byte_to_Z b < 256.
Proof. destruct b; vm_compute; split; congruence. Qed.

Lemma byte_eqb_eq (a b : byte) : byte_eqb a b = true <-> a = b.
Proof.
  unfold byte_eqb; split.
  - apply Byte.byte_dec_bl.
  - apply Byte.byte_dec_lb.
Qed.

Lemma bytes_eqb_refl (a : list byte) : bytes_eqb a a = true.
Proof. unfold bytes_eqb; destruct (list_eq_dec _ a a); congruence. Qed.

Lemma bytes_eqb_eq (a b : list byte) : bytes_eqb a b = true <-> a = b.
Proof.
  unfold bytes_eqb; destruct (list_eq_dec _ a b); split; congruence.
Qed.

(** ** Slices *)

Lemma set_nth_length (s : list byte) (i : nat) (v : byte) :
  (i < length s)%nat -> length (set_nth s i v) = length s.
Proof.
  intros Hi; unfold set_nth.
  rewrite length_app; cbn [length].
  rewrite length_firstn, length_skipn; lia.
Qed.

Lemma set_nth_same (s : list byte) (i : nat) (v d : byte) :
  (i < length s)%nat -> nth i (set_nth s i v) d = v.
Proof.
  intros Hi; unfold set_nth.
  rewrite app_nth2; rewrite length_firstn.
  - replace (i - Nat.min i (length s))%nat with 0%nat by lia; reflexivity.
  - lia.
Qed.

Lemma copy_same_length (dst src : list byte) :
  length dst = length src -> copy dst src = src.
Proof.
  intros Hlen; unfold copy.
  rewrite Hlen, firstn_all, skipn_all2 by lia.
  apply app_nil_r.
Qed.

(** ** encoding/hex and hexutil *)

Lemma hex_decode_pair (v : byte) (rest : list byte) :
  hex.DecodeString
    (nth (Z.to_nat (Z.shiftr (byte_to_Z v) 4)) hex.hextable x00
     :: nth (Z.to_nat (Z.land (byte_to_Z v) 0x0f)) hex.hextable x00 :: rest)
  = let '(bs, e) := hex.DecodeString rest in (v :: bs, e).
Proof. destruct v; reflexivity. Qed.

Lemma hex_decode_encode (b : list byte) :
  hex.DecodeString (hex.EncodeToString b) = (b, None).
Proof.
  induction b as [|v b IH].
  - reflexivity.
  - change (hex.EncodeToString (v :: b))
      with (nth (Z.to_nat (Z.shiftr (byte_to_Z v) 4)) hex.hextable x00
            :: nth (Z.to_nat (Z.land (byte_to_Z v) 0x0f)) hex.hextable x00
            :: hex.EncodeToString b).
    rewrite hex_decode_pair, IH; reflexivity.
Qed.

Lemma hex_encode_length (b : list byte) :
  length (hex.EncodeToString b) = (2 * length b)%nat.
Proof.
  induction b as [|v b IH]; [reflexivity|].
  unfold hex.EncodeToString in *; cbn [flat_map length app].
  rewrite IH; lia.
Qed.

Lemma hexutil_decode_encode (b : list byte) :
  hexutil.Decode (hexutil.Encode b) = Ok b.
Proof.
  unfold hexutil.Encode, hexutil.Decode.
  change (str "0x" ++ hex.EncodeToString b)
    with (x30 :: x78 :: hex.EncodeToString b).
  cbn [hexutil.has0xPrefix negb skipn].
  change (byte_eqb x30 x30 && (byte_eqb x78 x78 || byte_eqb x78 x58)) with true.
  cbn [negb]. rewrite hex_decode_encode; reflexivity.
Qed.

(** ** Addresses *)

Lemma BytesToAddress_length (b : list byte) :
  length (common.BytesToAddress b) = 20%nat.
Proof.
  unfold common.BytesToAddress, common.AddressLength, copy_at, copy.
  set (b' := if (20 <? length b)%nat then skipn (length b - 20) b else b).
  assert (Hb' : (length b' <= 20)%nat).
  { subst b'; destruct (Nat.ltb_spec 20 (length b)).
    - rewrite length_skipn; lia.
    - lia. }
  repeat rewrite length_app.
  repeat rewrite length_firstn.
  repeat rewrite length_skipn.
  rewrite repeat_length; lia.
Qed.

Lemma BytesToAddress_id (a : list byte) :
  length a = 20%nat -> common.BytesToAddress a = a.
Proof.
  intros Hlen; unfold common.BytesToAddress, common.AddressLength, copy_at.
  replace (20 <? length a)%nat with false by (rewrite Hlen; reflexivity).
  rewrite Hlen; cbn [Nat.sub firstn skipn app].
  apply copy_same_length; rewrite repeat_length; lia.
Qed.

Lemma PubkeyToAddress_length `{Crypto} (p : PublicKey) :
  length (PubkeyToAddress p) = 20%nat.
Proof. apply BytesToAddress_length. Qed.

Lemma hex_decode_same_digits (l : list byte) :
  (forall l', Forall2 sameHexDigit l l' ->
              hex.DecodeString l' = hex.DecodeString l)
  /\ (forall c c' l', sameHexDigit c c' -> Forall2 sameHexDigit l l' ->
                      hex.DecodeString (c' :: l') = hex.DecodeString (c :: l)).
Proof.
  induction l as [|d l [IH1 IH2]].
  - split.
    + intros l' Hl'; inversion Hl'; reflexivity.
    + intros c c' l' [v [Hc Hc']] Hl'; inversion Hl'; subst.
      cbn [hex.DecodeString]; rewrite Hc, Hc'; reflexivity.
  - split.
    + intros l' Hl'; inversion Hl' as [|? d' ? l'' Hd Hl'']; subst.
      apply IH2; assumption.
    + intros c c' l' [v [Hc Hc']] Hl'.
      inversion Hl' as [|? d' ? l'' [w [Hd Hd']] Hl'']; subst.
      cbn [hex.DecodeString]; rewrite Hc, Hc', Hd, Hd'.
      rewrite (IH1 l'' Hl''); reflexivity.
Qed.

Lemma checksum_char_same (c : byte) (up : bool) :
  isLowerHexDigit c = true ->
  sameHexDigit c (if (57 <? byte_to_Z c) && up then sub8 c 32 else c).
Proof.
  destruct c; try discriminate; intros _; destruct up;
    eexists; split; reflexivity.
Qed.

Lemma checksum_char_lower (c : byte) (up : bool) :
  isLowerHexDigit c = true ->
  toLower (if (57 <? byte_to_Z c) && up then sub8 c 32 else c) = c.
Proof.
  destruct c; try discriminate; intros _; destruct up; reflexivity.
Qed.

Lemma hex_encode_lower (b : list byte) :
  Forall (fun c => isLowerHexDigit c = true) (hex.EncodeToString b).
Proof.
  induction b as [|v b IH]; [constructor|].
  unfold hex.EncodeToString in *; cbn [flat_map app].
  constructor; [|constructor; [|exact IH]]; destruct v; reflexivity.
Qed.

Lemma checksumLoop_length (hash : list byte) (buf : list byte) (i : nat) :
  length (common.checksumLoop hash i buf) = length buf.
Proof.
  revert i; induction buf as [|c buf IH]; intros i; cbn [common.checksumLoop length].
  - reflexivity.
  - rewrite IH; reflexivity.
Qed.

Lemma checksumLoop_same (hash : list byte) (buf : list byte) (i : nat) :
  Forall (fun c => isLowerHexDigit c = true) buf ->
  Forall2 sameHexDigit buf (common.checksumLoop hash i buf).
Proof.
  intros Hbuf; revert i; induction Hbuf as [|c buf Hc Hbuf IH]; intros i;
    cbn [common.checksumLoop].
  - constructor.
  - constructor; [|apply IH].
    apply checksum_char_same; exact Hc.
Qed.

Lemma checksumLoop_lower (hash : list byte) (buf : list byte) (i : nat) :
  Forall (fun c => isLowerHexDigit c = true) buf ->
  map toLower (common.checksumLoop hash i buf) = buf.
Proof.
  intros Hbuf; revert i; induction Hbuf as [|c buf Hc Hbuf IH]; intros i;
    cbn [common.checksumLoop map].
  - reflexivity.
  - rewrite IH, checksum_char_lower by exact Hc; reflexivity.
Qed.

Lemma checksum_char_letter (c : byte) :
  isLowerHexDigit c = true ->
  (57 <? byte_to_Z c) = isHexLetter c
  /\ (isHexLetter c = true -> sub8 c 32 = toUpper c).
Proof.
  destruct c; try discriminate; intros _;
    (split; [reflexivity
            |intros H; first [reflexivity|vm_compute in H; discriminate H]]).
Qed.

Lemma checksum_hash_digit (hash : list byte) (i : nat) :
  (7 <? (if Nat.even i then Z.shiftr (byte_to_Z (nth (i / 2) hash x00)) 4
         else Z.land (byte_to_Z (nth (i / 2) hash x00)) 0xf))
  = (8 <=? hashDigit hash i).
Proof.
  unfold hashDigit; cbv zeta.
  generalize (byte_to_Z (nth (i / 2) hash x00)); intros b.
  rewrite Z.shiftr_div_pow2 by lia.
  change 0xf with (Z.ones 4); rewrite Z.land_ones by lia.
  change (2 ^ 4) with 16.
  destruct (Nat.even i);
    match goal with
    | |- (7 <? ?x) = (8 <=? ?x) =>
        destruct (Z.ltb_spec 7 x), (Z.leb_spec 8 x); try reflexivity; lia
    end.
Qed.

(** Character [j] of what the loop of [checksumHex] leaves: the digit, in
    upper case when it is a letter and the digit of the hash at its place is
    8 or more. *)
Lemma checksumLoop_nth (hash buf : list byte) (i j : nat) :
  Forall (fun c => isLowerHexDigit c = true) buf ->
  (j < length buf)%nat ->
  nth j (common.checksumLoop hash i buf) x00
  = if isHexLetter (nth j buf x00) && (8 <=? hashDigit hash (i + j))
    then toUpper (nth j buf x00) else nth j buf x00.
Proof.
  intros Hbuf; revert i j; induction Hbuf as [|c buf Hc Hbuf IH]; intros i j Hj;
    cbn [length] in Hj; [lia|].
  cbn [common.checksumLoop]; cbv zeta.
  destruct j as [|j]; cbn [nth].
  - rewrite Nat.add_0_r, checksum_hash_digit.
    destruct (checksum_char_letter c Hc) as [Hletter Hup]; rewrite Hletter.
    destruct (isHexLetter c) eqn:Hl; cbn [andb]; [|reflexivity].
    rewrite (Hup eq_refl); reflexivity.
  - rewrite IH by lia.
    replace (S i + j)%nat with (i + S j)%nat by lia; reflexivity.
Qed.

(** Reading an address back from its EIP-55 form gives the address. *)
Lemma HexToAddress_Hex (a : common.Address) :
  length a = 20%nat -> common.HexToAddress (common.Hex a) = a.
Proof.
  intros Hlen.
  unfold common.HexToAddress, common.FromHex, common.Hex2Bytes, common.Hex.
  set (digits := hex.EncodeToString a).
  set (body := common.checksumLoop (Keccak256 digits) 0 digits).
  change (str "0x" ++ body) with (x30 :: x78 :: body).
  cbn [hexutil.has0xPrefix skipn].
  change (byte_eqb x30 x30 && (byte_eqb x78 x78 || byte_eqb x78 x58)) with true.
  cbv iota.
  assert (Hbody : length body = 40%nat).
  { subst body digits; rewrite checksumLoop_length, hex_encode_length; lia. }
  rewrite Hbody; cbn [Nat.odd Nat.even negb].
  destruct (hex_decode_same_digits digits) as [Hsame _].
  rewrite (Hsame body).
  - subst digits; rewrite hex_decode_encode; cbn [fst].
    apply BytesToAddress_id; exact Hlen.
  - apply checksumLoop_same, hex_encode_lower.
Qed.

Lemma Keccak256_length (data : list byte) : length (Keccak256 data) = 32%nat.
Proof.
  unfold Keccak256, Keccak.Keccak256; cbv zeta.
  generalize (Keccak.absorb (length (data ++ Keccak.pad (length data)) / Keccak.rate)
                (repeat 0 25) (data ++ Keccak.pad (length data))).
  intros A; reflexivity.
Qed.

(** ** Big-endian integers *)

Lemma be_bytes_digits (n : nat) (z : Z) :
  big.be_bytes n z
  = map (fun i => byte_of_Z (z / 256 ^ (Z.of_nat n - 1 - Z.of_nat i))) (seq 0 n).
Proof.
  revert z; induction n as [|n IH]; intros z.
  - reflexivity.
  - cbn [big.be_bytes]. rewrite seq_S, map_app, IH; cbn [map Nat.add].
    f_equal.
    + apply map_ext_in; intros i Hi; apply in_seq in Hi.
      rewrite Z.shiftr_div_pow2 by lia.
      rewrite Z.div_div by lia.
      replace (Z.of_nat (S n) - 1 - Z.of_nat i)
        with (1 + (Z.of_nat n - 1 - Z.of_nat i)) by lia.
      rewrite Z.pow_add_r by lia. reflexivity.
    + replace (Z.of_nat (S n) - 1 - Z.of_nat n) with 0 by lia.
      rewrite Z.pow_0_r, Z.div_1_r; reflexivity.
Qed.

Lemma be_bytes_32 (z : Z) : big.be_bytes 32 z = be32 z.
Proof. rewrite be_bytes_digits; reflexivity. Qed.

Lemma FillBytes_32 (x : Z) :
  Z.abs x < 2 ^ 256 -> big.FillBytes x 32 = Ok (be32 (Z.abs x)).
Proof.
  intros Hx; unfold big.FillBytes.
  change (256 ^ Z.of_nat 32) with (2 ^ 256).
  destruct (Z.ltb_spec (Z.abs x) (2 ^ 256)); [|lia].
  rewrite be_bytes_32; reflexivity.
Qed.

Lemma FillBytes_int64 (x : Z) :
  in_int64 x -> big.FillBytes x 32 = Ok (be32 (Z.abs x)).
Proof.
  unfold in_int64; intros Hx; apply FillBytes_32.
  assert (2 ^ 63 < 2 ^ 256) by (apply Z.pow_lt_mono_r; lia).
  lia.
Qed.

Lemma FillBytes_uint64 (x : Z) :
  in_uint64 x -> big.FillBytes x 32 = Ok (be32 x).
Proof.
  unfold in_uint64; intros Hx.
  rewrite FillBytes_32.
  - rewrite Z.abs_eq by lia; reflexivity.
  - assert (2 ^ 64 < 2 ^ 256) by (apply Z.pow_lt_mono_r; lia).
    lia.
Qed.

Lemma neg64_abs (c : Z) : in_int64 c -> Z.abs (neg64 c) = Z.abs c.
Proof.
  unfold in_int64, neg64; intros Hc.
  destruct (Z.eq_dec c (- 2 ^ 63)) as [->|Hne].
  - reflexivity.
  - rewrite Z.mod_small by lia.
    replace (- c + 2 ^ 63 - 2 ^ 63) with (- c) by lia.
    apply Z.abs_opp.
Qed.

Lemma neg64_in_int64 (c : Z) : in_int64 c -> in_int64 (neg64 c).
Proof.
  unfold in_int64, neg64; intros Hc.
  assert (0 <= (- c + 2 ^ 63) mod 2 ^ 64 < 2 ^ 64)
    by (apply Z.mod_pos_bound; lia).
  change (2 ^ 64) with (2 * 2 ^ 63) in *. lia.
Qed.

(** ** The domain separator *)

Lemma getDomainSeparator_eq (domain : EIP712Domain.t) :
  in_int64 (EIP712Domain.ChainID domain) ->
  getDomainSeparator domain
  = Ok (domainSeparatorOf (EIP712Domain.Name domain) (EIP712Domain.Version domain)
          (Z.abs (EIP712Domain.ChainID domain))).
Proof.
  intros Hc; unfold getDomainSeparator, domainSeparatorOf.
  rewrite FillBytes_int64 by exact Hc.
  cbn [bind]. repeat rewrite <- app_assoc. reflexivity.
Qed.

(** C10: the chain id enters the domain separator as the 32-byte big-endian
    form of its absolute value, so a chain id and its negation give the same
    separator, and a negative chain id yields a hash and no error. *)
Theorem getDomainSeparator_chainId_abs :
  forall (name version salt verifyingContract : list byte) (c : Z),
    in_int64 c ->
    getDomainSeparator (EIP712Domain.mk name version c salt verifyingContract)
    = Ok (domainSeparatorOf name version (Z.abs c))
    /\ getDomainSeparator
         (EIP712Domain.mk name version (neg64 c) salt verifyingContract)
       = getDomainSeparator
           (EIP712Domain.mk name version c salt verifyingContract).
Proof.
  intros name version salt vc c Hc; split.
  - apply (getDomainSeparator_eq (EIP712Domain.mk name version c salt vc)); exact Hc.
  - rewrite (getDomainSeparator_eq (EIP712Domain.mk name version (neg64 c) salt vc))
      by (apply neg64_in_int64; exact Hc).
    rewrite (getDomainSeparator_eq (EIP712Domain.mk name version c salt vc))
      by exact Hc.
    cbn [EIP712Domain.ChainID EIP712Domain.Name EIP712Domain.Version].
    rewrite neg64_abs by exact Hc; reflexivity.
Qed.

(** ** The canonical digest *)

Lemma address_slot (a : list byte) :
  length a = 20%nat -> copy_at (repeat x00 32) 12 a = repeat x00 12 ++ a.
Proof.
  intros Hlen; unfold copy_at.
  change (firstn 12 (repeat x00 32)) with (repeat x00 12).
  change (skipn 12 (repeat x00 32)) with (repeat x00 20).
  rewrite copy_same_length by (rewrite repeat_length; lia).
  reflexivity.
Qed.

Lemma encodeClobAuthData_eq (a timestamp message : list byte) (nonce : Z) :
  length a = 20%nat -> in_uint64 nonce ->
  encodeClobAuthData (ClobAuthData.mk (common.Hex a) timestamp nonce message)
  = Ok ((repeat x00 12 ++ a) ++ Keccak256 timestamp ++ be32 nonce
        ++ Keccak256 message).
Proof.
  intros Hlen Hn; unfold encodeClobAuthData.
  cbn [ClobAuthData.Address ClobAuthData.Timestamp ClobAuthData.Nonce
       ClobAuthData.Message].
  rewrite HexToAddress_Hex, address_slot by exact Hlen.
  rewrite FillBytes_uint64 by exact Hn.
  cbn [bind]. repeat rewrite <- app_assoc. reflexivity.
Qed.

Section CanonicalDigest.
Context `{Crypto}.

Lemma clobAuthHash_eq (k : PrivateKey) (c t n : Z) :
  in_int64 c -> in_uint64 n ->
  clobAuthHash k c t n
  = Ok (signingDigestOf
          (domainSeparatorOf (str "ClobAuthDomain") (str "1") (Z.abs c))
          (clobAuthStructHashOf (PubkeyToAddress (PublicKeyOf k))
             (fmt.Sprintf_d t) n MSG_TO_SIGN)).
Proof.
  intros Hc Hn; unfold clobAuthHash.
  rewrite getDomainSeparator_eq by exact Hc.
  rewrite encodeClobAuthData_eq by (apply PubkeyToAddress_length || exact Hn).
  cbn [wrapErr bind getTypeHash EIP712Domain.Name EIP712Domain.Version
       EIP712Domain.ChainID].
  unfold signingDigestOf, clobAuthStructHashOf, ClobAuth_typeString.
  repeat rewrite <- app_assoc. reflexivity.
Qed.

(** C5: the digest [BuildClobEip712Signature] hands to [crypto.Sign] is
    keccak256(0x19 0x01 || domainSeparator || structHash); the separator hashes
    the EIP712Domain type hash, keccak256(name), keccak256(version) and the
    32-byte big-endian chain id (its magnitude) and nothing else; the struct
    hash takes the ClobAuth type hash, the address after twelve zero bytes,
    keccak256 of the decimal timestamp, the 32-byte big-endian nonce and
    keccak256 of the attestation text, in this order. *)
Theorem BuildClobEip712Signature_digest :
  forall (k : PrivateKey) (c t n : Z),
    in_int64 c -> in_uint64 n ->
    let digest :=
      signingDigestOf
        (domainSeparatorOf (str "ClobAuthDomain") (str "1") (Z.abs c))
        (clobAuthStructHashOf (PubkeyToAddress (PublicKeyOf k))
           (fmt.Sprintf_d t) n MSG_TO_SIGN) in
    clobAuthHash k c t n = Ok digest
    /\ BuildClobEip712Signature k c t n
       = (signature <- wrapErr "failed to sign hash" (Sign digest k) ;;
          signature <- adjustV signature ;;
          Ok (hexutil.Encode signature)).
Proof.
  intros k c t n Hc Hn digest; split.
  - apply clobAuthHash_eq; assumption.
  - unfold BuildClobEip712Signature.
    rewrite clobAuthHash_eq by assumption. reflexivity.
Qed.

End CanonicalDigest.

(** ** The HMAC tag *)

Lemma replaceFrom_byte (o n : byte) (s : list byte) :
  strings.replaceFrom [o] [n] 0 s
  = map (fun c => if byte_eqb o c then n else c) s.
Proof.
  induction s as [|c s IH]; cbn [strings.replaceFrom map].
  - reflexivity.
  - cbn [strings.HasPrefix length Nat.sub].
    rewrite andb_true_r, IH.
    destruct (byte_eqb o c); reflexivity.
Qed.

Lemma urlSafeChar_two_steps (c : byte) :
  (fun c => if byte_eqb x2f c then x5f else c)
    ((fun c => if byte_eqb x2b c then x2d else c) c)
  = urlSafeChar c.
Proof. destruct c; reflexivity. Qed.

Lemma ReplaceAll_urlSafe (sig : list byte) :
  strings.ReplaceAll (strings.ReplaceAll sig (str "+") (str "-"))
                     (str "/") (str "_")
  = map urlSafeChar sig.
Proof.
  unfold strings.ReplaceAll.
  change (str "+") with [x2b]; change (str "-") with [x2d].
  change (str "/") with [x2f]; change (str "_") with [x5f].
  rewrite !replaceFrom_byte, map_map.
  apply map_ext; intros c; apply urlSafeChar_two_steps.
Qed.

Lemma urlSafeChar_spec (c : byte) :
  urlSafeChar c <> x2b /\ urlSafeChar c <> x2f
  /\ (c <> x2b -> c <> x2f -> urlSafeChar c = c).
Proof. destruct c; repeat split; try discriminate; congruence. Qed.

Lemma sextet_std_url (val shift : Z) :
  urlSafeChar (base64.sextet base64.encodeStd val shift)
  = base64.sextet base64.encodeURL val shift.
Proof.
  unfold base64.sextet.
  assert (Hr : 0 <= Z.land (Z.shiftr val shift) 0x3F < 64).
  { split.
    - apply Z.land_nonneg; right; lia.
    - change 0x3F with (Z.ones 6). rewrite Z.land_ones by lia.
      apply Z.mod_pos_bound; lia. }
  set (i := Z.to_nat (Z.land (Z.shiftr val shift) 0x3F)).
  assert (Hi : (i < 64)%nat) by (subst i; lia).
  clearbody i; clear Hr.
  do 64 (destruct i as [|i]; [reflexivity|]); lia.
Qed.

Lemma std_to_url_steps (src : list byte) :
  map urlSafeChar (base64.StdEncoding_EncodeToString src)
  = base64.URLEncoding_EncodeToString src
  /\ (forall a,
        map urlSafeChar (base64.StdEncoding_EncodeToString (a :: src))
        = base64.URLEncoding_EncodeToString (a :: src))
  /\ (forall a b,
        map urlSafeChar (base64.StdEncoding_EncodeToString (a :: b :: src))
        = base64.URLEncoding_EncodeToString (a :: b :: src)).
Proof.
  unfold base64.StdEncoding_EncodeToString, base64.URLEncoding_EncodeToString.
  induction src as [|c src [IH0 [IH1 IH2]]].
  - repeat split; intros; cbn [base64.EncodeToString map];
      rewrite ?sextet_std_url; reflexivity.
  - split; [apply IH1|split; [intros a; apply IH2|]].
    intros a b; cbn [base64.EncodeToString map].
    rewrite !sextet_std_url, IH0; reflexivity.
Qed.

Lemma std_to_url (src : list byte) :
  map urlSafeChar (base64.StdEncoding_EncodeToString src)
  = base64.URLEncoding_EncodeToString src.
Proof. apply std_to_url_steps. Qed.

Section HmacProofs.
Variable hmac_sha256 : list byte -> list byte -> list byte.
Variable URLEncoding_DecodeString : list byte -> list byte * option error.

Lemma BuildMessage_canonical (timestamp : Z) (method path : list byte)
    (body : option (list byte)) :
  BuildMessage timestamp method path body
  = canonicalMessage timestamp method path body.
Proof.
  unfold BuildMessage, canonicalMessage; destruct body as [b|].
  - repeat rewrite <- app_assoc; reflexivity.
  - rewrite app_nil_r; repeat rewrite <- app_assoc; reflexivity.
Qed.

Lemma BuildPolyHmacSignature_eq (secret : list byte) (timestamp : Z)
    (method path : list byte) (body : option (list byte)) :
  BuildPolyHmacSignature hmac_sha256 URLEncoding_DecodeString
    secret timestamp method path body
  = map urlSafeChar
      (base64.StdEncoding_EncodeToString
         (hmac_sha256 (hmacKey URLEncoding_DecodeString secret)
                      (canonicalMessage timestamp method path body))).
Proof.
  unfold BuildPolyHmacSignature.
  rewrite ReplaceAll_urlSafe.
  change (fmt.Sprintf_d timestamp ++ method ++ path)
    with (BuildMessage timestamp method path None).
  replace (match body with
           | Some b => BuildMessage timestamp method path None ++ b
           | None => BuildMessage timestamp method path None
           end)
    with (canonicalMessage timestamp method path body).
  - unfold hmacKey.
    destruct (URLEncoding_DecodeString secret) as [decoded [e|]]; reflexivity.
  - rewrite <- BuildMessage_canonical. destruct body; reflexivity.
Qed.

(** C6: the tag is the standard base64 text (padding kept) of HMAC-SHA256,
    keyed with the URL-safe-base64 decoding of the secret or, when that fails,
    with the secret's own bytes, over decimal(timestamp) || method || path ||
    body with the body left out when absent; in the text [+] becomes [-] and
    [/] becomes [_], and every other character, the padding [=] included,
    stays. *)
Theorem BuildPolyHmacSignature_layout :
  forall (secret : list byte) (timestamp : Z) (method path : list byte)
         (body : option (list byte)),
    BuildPolyHmacSignature hmac_sha256 URLEncoding_DecodeString
      secret timestamp method path body
    = map urlSafeChar
        (base64.StdEncoding_EncodeToString
           (hmac_sha256 (hmacKey URLEncoding_DecodeString secret)
                        (canonicalMessage timestamp method path body)))
    /\ urlSafeChar base64.StdPadding = base64.StdPadding
    /\ urlSafeChar x2b = x2d /\ urlSafeChar x2f = x5f
    /\ (forall c, c = x2b \/ c = x2f \/ urlSafeChar c = c).
Proof.
  intros secret timestamp method path body.
  split; [apply BuildPolyHmacSignature_eq|].
  split; [reflexivity|split; [reflexivity|split; [reflexivity|]]].
  intros c; destruct c; auto.
Qed.

(** C9: a nil body and an empty body give the same message and the same
    tag. *)
Theorem nil_body_same_as_empty_body :
  forall (secret : list byte) (timestamp : Z) (method path : list byte),
    BuildPolyHmacSignature hmac_sha256 URLEncoding_DecodeString
      secret timestamp method path None
    = BuildPolyHmacSignature hmac_sha256 URLEncoding_DecodeString
        secret timestamp method path (Some [])
    /\ BuildMessage timestamp method path None
       = BuildMessage timestamp method path (Some []).
Proof.
  intros secret timestamp method path.
  unfold BuildPolyHmacSignature, BuildMessage.
  rewrite app_nil_r. split; reflexivity.
Qed.

(** The tag passes [VerifyHmacSignature] for the inputs it was built from. *)
Theorem VerifyHmacSignature_accepts_built_tag :
  forall (secret : list byte) (timestamp : Z) (method path : list byte)
         (body : option (list byte)),
    VerifyHmacSignature hmac_sha256 URLEncoding_DecodeString
      secret timestamp method path body
      (BuildPolyHmacSignature hmac_sha256 URLEncoding_DecodeString
         secret timestamp method path body)
    = true.
Proof. intros; unfold VerifyHmacSignature; apply bytes_eqb_refl. Qed.

(** The tag is the padded URL-alphabet base64 text of the MAC: translating
    [+] and [/] in the standard text gives what [base64.URLEncoding] writes. *)
Theorem tag_is_padded_url_base64 :
  forall (secret : list byte) (timestamp : Z) (method path : list byte)
         (body : option (list byte)),
    BuildPolyHmacSignature hmac_sha256 URLEncoding_DecodeString
      secret timestamp method path body
    = base64.URLEncoding_EncodeToString
        (hmac_sha256 (hmacKey URLEncoding_DecodeString secret)
                     (canonicalMessage timestamp method path body)).
Proof.
  intros secret timestamp method path body.
  rewrite BuildPolyHmacSignature_eq; apply std_to_url.
Qed.

End HmacProofs.

(** ** Signing and recovery *)

Lemma add8_27_of_0 : add8 x00 27 = x1b.
Proof. reflexivity. Qed.

Lemma add8_27_of_1 : add8 x01 27 = x1c.
Proof. reflexivity. Qed.

Lemma adjustV_raw (sig : list byte) :
  length sig = 65%nat ->
  nth 64 sig x00 = x00 \/ nth 64 sig x00 = x01 ->
  exists sig', adjustV sig = Ok sig' /\ length sig' = 65%nat
               /\ (nth 64 sig' x00 = x1b \/ nth 64 sig' x00 = x1c).
Proof.
  intros Hlen Hv; unfold adjustV.
  rewrite (nth_error_nth' sig x00) by lia.
  destruct Hv as [Hv|Hv]; rewrite Hv;
    change (byte_to_Z x00 <? 27) with true;
    change (byte_to_Z x01 <? 27) with true; cbv iota;
    eexists; (split; [reflexivity|]);
    (split; [rewrite set_nth_length by lia; exact Hlen|]);
    rewrite set_nth_same by lia; [left|right]; reflexivity.
Qed.

Lemma adjustRecoveryByte_standard (sig : list byte) :
  length sig = 65%nat ->
  nth 64 sig x00 = x00 \/ nth 64 sig x00 = x01
  \/ nth 64 sig x00 = x1b \/ nth 64 sig x00 = x1c ->
  length (adjustRecoveryByte sig) = 65%nat
  /\ (nth 64 (adjustRecoveryByte sig) x00 = x1b
      \/ nth 64 (adjustRecoveryByte sig) x00 = x1c).
Proof.
  intros Hlen Hv; unfold adjustRecoveryByte.
  destruct Hv as [Hv|[Hv|[Hv|Hv]]]; rewrite Hv.
  - change (negb (byte_to_Z x00 =? 27) && negb (byte_to_Z x00 =? 28)) with true.
    cbv iota; rewrite set_nth_length, set_nth_same by lia; auto.
  - change (negb (byte_to_Z x01 =? 27) && negb (byte_to_Z x01 =? 28)) with true.
    cbv iota; rewrite set_nth_length, set_nth_same by lia; auto.
  - change (negb (byte_to_Z x1b =? 27) && negb (byte_to_Z x1b =? 28)) with false.
    cbv iota; auto.
  - change (negb (byte_to_Z x1c =? 27) && negb (byte_to_Z x1c =? 28)) with false.
    cbv iota; auto.
Qed.

Lemma adjustRecoveryByte_canonical (sig : list byte) :
  nth 64 sig x00 = x1b \/ nth 64 sig x00 = x1c -> adjustRecoveryByte sig = sig.
Proof.
  intros Hv; unfold adjustRecoveryByte; destruct Hv as [Hv|Hv]; rewrite Hv;
    reflexivity.
Qed.

Section SigningProofs.
Context `{Crypto}.

Lemma raw_signature_returned (r : result (list byte)) (sig0 : list byte) :
  Sign_format ->
  forall hash key, Sign hash key = Ok sig0 ->
  r = Ok (hexutil.Encode sig0) -> returnsSignatureWithV r x00 x01.
Proof.
  intros Hfmt hash key Hsign Hr.
  destruct (Hfmt hash key sig0 Hsign) as [Hlen Hv].
  exists (hexutil.Encode sig0), sig0.
  repeat split; auto using hexutil_decode_encode.
Qed.

Lemma RecoverAddress_unfold (hash signature sig : list byte) :
  hexutil.Decode signature = Ok sig -> length sig = 65%nat ->
  RecoverAddress hash signature
  = (pubkey <- wrapErr "failed to recover public key"
                 (SigToPub hash (adjustRecoveryByte sig)) ;;
     Ok (PubkeyToAddress pubkey)).
Proof.
  intros Hdec Hlen; unfold RecoverAddress.
  rewrite Hdec; cbn [wrapErr bind]. rewrite Hlen. reflexivity.
Qed.

Lemma RecoverAddressFromMessage_unfold (message signature sig : list byte) :
  hexutil.Decode signature = Ok sig -> length sig = 65%nat ->
  RecoverAddressFromMessage message signature
  = (pubkey <- wrapErr "failed to recover public key"
                 (SigToPub (Keccak256 message) (adjustRecoveryByte sig)) ;;
     Ok (PubkeyToAddress pubkey)).
Proof.
  intros Hdec Hlen; unfold RecoverAddressFromMessage.
  rewrite Hdec; cbn [wrapErr bind]. rewrite Hlen. reflexivity.
Qed.

(** C8: a signature string that decodes to other than 65 bytes gets the
    length error from [RecoverAddress] and from [RecoverAddressFromMessage]:
    no panic, no address. *)
Theorem recover_rejects_wrong_length :
  forall (hash message signature sig : list byte),
    hexutil.Decode signature = Ok sig ->
    length sig <> 65%nat ->
    RecoverAddress hash signature = Err (New "signature must be 65 bytes long")
    /\ RecoverAddressFromMessage message signature
       = Err (New "signature must be 65 bytes long").
Proof.
  intros hash message signature sig Hdec Hlen.
  unfold RecoverAddress, RecoverAddressFromMessage.
  rewrite Hdec; cbn [wrapErr bind].
  destruct (Nat.eqb_spec (length sig) 65) as [Heq|_]; [contradiction|].
  split; reflexivity.
Qed.

(** C2, what the code does: with [crypto.Sign] returning V as 0 or 1,
    [SignHash], [SignMessage] and [SignTypedData] return that signature as it
    is, last byte 0 or 1; only [BuildClobEip712Signature] moves it to 27 or
    28. *)
Theorem signers_recovery_byte :
  Sign_format ->
  forall (w : Wallet) (key : PrivateKey) (hash message : list byte)
         (typedData : TypedData.t) (chainID timestamp nonce : Z),
    (forall sig0, Sign hash (privateKey w) = Ok sig0 ->
       returnsSignatureWithV (SignHash w hash) x00 x01)
    /\ (forall sig0, Sign (Keccak256 message) (privateKey w) = Ok sig0 ->
          returnsSignatureWithV (SignMessage w message) x00 x01)
    /\ (forall h sig0, getTypedDataHash typedData = Ok h -> Sign h key = Ok sig0 ->
          returnsSignatureWithV (SignTypedData key typedData) x00 x01)
    /\ (forall h sig0, clobAuthHash key chainID timestamp nonce = Ok h ->
          Sign h key = Ok sig0 ->
          returnsSignatureWithV
            (BuildClobEip712Signature key chainID timestamp nonce) x1b x1c).
Proof.
  intros Hfmt w key hash message typedData chainID timestamp nonce.
  repeat split.
  - intros sig0 Hsign.
    apply (raw_signature_returned _ sig0 Hfmt _ _ Hsign).
    unfold SignHash; rewrite Hsign; reflexivity.
  - intros sig0 Hsign.
    apply (raw_signature_returned _ sig0 Hfmt _ _ Hsign).
    unfold SignMessage; rewrite Hsign; reflexivity.
  - intros h sig0 Hh Hsign.
    apply (raw_signature_returned _ sig0 Hfmt _ _ Hsign).
    unfold SignTypedData; rewrite Hh; cbn [wrapErr bind].
    rewrite Hsign; reflexivity.
  - intros h sig0 Hh Hsign.
    destruct (Hfmt h key sig0 Hsign) as [Hlen Hv].
    destruct (adjustV_raw sig0 Hlen Hv) as [sig' [Hadj [Hlen' Hv']]].
    exists (hexutil.Encode sig'), sig'.
    repeat split; auto using hexutil_decode_encode.
    unfold BuildClobEip712Signature; rewrite Hh; cbn [wrapErr bind].
    rewrite Hsign; cbn [wrapErr bind]. rewrite Hadj; reflexivity.
Qed.

(** C4, what the code does: for a 65-byte signature whose last byte is 0, 1,
    27 or 28 the byte handed to [crypto.SigToPub] is 27 or 28, never 0 or 1;
    as the library refuses that byte, recovery returns its error for all four
    forms. *)
Theorem recover_refuses_standard_v :
  SigToPub_recovery_id ->
  forall (hash message signature sig : list byte),
    hexutil.Decode signature = Ok sig ->
    length sig = 65%nat ->
    nth 64 sig x00 = x00 \/ nth 64 sig x00 = x01
    \/ nth 64 sig x00 = x1b \/ nth 64 sig x00 = x1c ->
    (nth 64 (adjustRecoveryByte sig) x00 = x1b
     \/ nth 64 (adjustRecoveryByte sig) x00 = x1c)
    /\ (exists e, RecoverAddress hash signature
                  = Err (Wrap "failed to recover public key" e))
    /\ (exists e, RecoverAddressFromMessage message signature
                  = Err (Wrap "failed to recover public key" e)).
Proof.
  intros Hrec hash message signature sig Hdec Hlen Hv.
  destruct (adjustRecoveryByte_standard sig Hlen Hv) as [Hlen' Hv'].
  split; [exact Hv'|split].
  - destruct (Hrec hash _ Hlen' Hv') as [e He].
    exists e. rewrite (RecoverAddress_unfold _ _ _ Hdec Hlen), He; reflexivity.
  - destruct (Hrec (Keccak256 message) _ Hlen' Hv') as [e He].
    exists e.
    rewrite (RecoverAddressFromMessage_unfold _ _ _ Hdec Hlen), He; reflexivity.
Qed.

(** C3, what the code does: whenever [crypto.Sign] signs the canonical
    digest, [BuildClobEip712Signature] returns a signature string, and
    [RecoverAddress] on the same digest and that string returns the library's
    recovery error, not the signer's address. *)
Theorem recover_of_built_signature_fails :
  Sign_format ->
  SigToPub_recovery_id ->
  forall (key : PrivateKey) (chainID timestamp nonce : Z) (hash sig0 : list byte),
    clobAuthHash key chainID timestamp nonce = Ok hash ->
    Sign hash key = Ok sig0 ->
    exists signatureHex e,
      BuildClobEip712Signature key chainID timestamp nonce = Ok signatureHex
      /\ RecoverAddress hash signatureHex
         = Err (Wrap "failed to recover public key" e).
Proof.
  intros Hfmt Hrec key chainID timestamp nonce hash sig0 Hh Hsign.
  destruct (Hfmt hash key sig0 Hsign) as [Hlen Hv].
  destruct (adjustV_raw sig0 Hlen Hv) as [sig' [Hadj [Hlen' Hv']]].
  destruct (Hrec hash sig' Hlen' Hv') as [e He].
  exists (hexutil.Encode sig'), e; split.
  - unfold BuildClobEip712Signature; rewrite Hh; cbn [wrapErr bind].
    rewrite Hsign; cbn [wrapErr bind]. rewrite Hadj; reflexivity.
  - rewrite (RecoverAddress_unfold _ _ sig') by auto using hexutil_decode_encode.
    rewrite adjustRecoveryByte_canonical by exact Hv'.
    rewrite He; reflexivity.
Qed.

(** C7, as the code has it: the text is 0x and forty hex digits in EIP-55
    case.  In lower case they are the hex form of the twenty bytes, and the
    text reads back as the address; character by character, a digit from 0 to
    9 is printed as it is and a letter is printed in upper case exactly when
    the hex digit at its place in the Keccak-256 hash of the forty lower-case
    digits is 8 or more. *)
Theorem GetAddressHex_checksum_form :
  forall (w : Wallet),
    length (address w) = 20%nat ->
    exists body,
      GetAddressHex w = str "0x" ++ body
      /\ length body = 40%nat
      /\ map toLower body = hex.EncodeToString (address w)
      /\ common.HexToAddress (GetAddressHex w) = address w
      /\ (forall i, (i < 40)%nat ->
            nth i body x00 = eip55Char (hex.EncodeToString (address w)) i).
Proof.
  intros w Hlen; unfold GetAddressHex.
  exists (common.checksumLoop (Keccak256 (hex.EncodeToString (address w))) 0
            (hex.EncodeToString (address w))).
  split; [reflexivity|split; [|split; [|split]]].
  - rewrite checksumLoop_length, hex_encode_length; lia.
  - apply checksumLoop_lower, hex_encode_lower.
  - apply HexToAddress_Hex; exact Hlen.
  - intros i Hi; unfold eip55Char; cbv zeta.
    apply (checksumLoop_nth _ _ 0 i (hex_encode_lower (address w))).
    rewrite hex_encode_length; lia.
Qed.

Lemma adjustRecoveryByte_raw (sig : list byte) :
  nth 64 sig x00 = x00 \/ nth 64 sig x00 = x01 ->
  adjustRecoveryByte sig = set_nth sig 64 (add8 (nth 64 sig x00) 27).
Proof.
  intros Hv; unfold adjustRecoveryByte; destruct Hv as [Hv|Hv]; rewrite Hv;
    reflexivity.
Qed.

(** Recovery gives one result for the 0/1 form of a signature and for its
    27/28 form: both reach [crypto.SigToPub] as the same 65 bytes. *)
Theorem recover_same_for_both_forms :
  forall (hash sig : list byte),
    length sig = 65%nat ->
    nth 64 sig x00 = x00 \/ nth 64 sig x00 = x01 ->
    RecoverAddress hash (hexutil.Encode sig)
    = RecoverAddress hash
        (hexutil.Encode (set_nth sig 64 (add8 (nth 64 sig x00) 27))).
Proof.
  intros hash sig Hlen Hv.
  assert (Hlen' : length (set_nth sig 64 (add8 (nth 64 sig x00) 27)) = 65%nat)
    by (rewrite set_nth_length by lia; exact Hlen).
  assert (Hv' : nth 64 (set_nth sig 64 (add8 (nth 64 sig x00) 27)) x00 = x1b
                \/ nth 64 (set_nth sig 64 (add8 (nth 64 sig x00) 27)) x00 = x1c).
  { rewrite set_nth_same by lia.
    destruct Hv as [Hv|Hv]; rewrite Hv; [left|right]; reflexivity. }
  rewrite (RecoverAddress_unfold hash _ sig)
    by auto using hexutil_decode_encode.
  rewrite (RecoverAddress_unfold hash _ (set_nth sig 64 (add8 (nth 64 sig x00) 27)))
    by auto using hexutil_decode_encode.
  rewrite adjustRecoveryByte_raw by exact Hv.
  rewrite (adjustRecoveryByte_canonical _ Hv'); reflexivity.
Qed.

(** The string [BuildClobEip712Signature] returns is 0x and 130 lower-case
    hex digits. *)
Theorem BuildClobEip712Signature_wire_format :
  Sign_format ->
  forall (key : PrivateKey) (chainID timestamp nonce : Z) (hash sig0 : list byte),
    clobAuthHash key chainID timestamp nonce = Ok hash ->
    Sign hash key = Ok sig0 ->
    exists digits,
      BuildClobEip712Signature key chainID timestamp nonce = Ok (str "0x" ++ digits)
      /\ length digits = 130%nat
      /\ Forall (fun c => isLowerHexDigit c = true) digits.
Proof.
  intros Hfmt key chainID timestamp nonce hash sig0 Hh Hsign.
  destruct (Hfmt hash key sig0 Hsign) as [Hlen Hv].
  destruct (adjustV_raw sig0 Hlen Hv) as [sig' [Hadj [Hlen' _]]].
  exists (hex.EncodeToString sig'); split; [|split].
  - unfold BuildClobEip712Signature; rewrite Hh; cbn [wrapErr bind].
    rewrite Hsign; cbn [wrapErr bind]. rewrite Hadj; reflexivity.
  - rewrite hex_encode_length, Hlen'; reflexivity.
  - apply hex_encode_lower.
Qed.

End SigningProofs.

(** ** The generic typed-data path *)

(** C1, what the code does: the message hash of [SignTypedData] is
    keccak256 of the JSON text of the message and reads neither the types nor
    the primary type; on the ClobAuth message of the sample it is 0xb733...,
    while the struct hash of the same message (type hash and encoded fields) is
    0x4456.... *)
Theorem getMessageHash_is_json_hash :
  (forall typedData,
      getMessageHash typedData
      = Ok (Keccak256 (json.reflectValue (TypedData.Message typedData))))
  /\ (forall types types' primaryType primaryType' domain domain' message,
         getMessageHash (TypedData.mk types primaryType domain message)
         = getMessageHash (TypedData.mk types' primaryType' domain' message))
  /\ getMessageHash sampleTypedData
     = Ok (common.FromHex
             (str "0xb7337c01bb08523a31614552a0270fae9eca7d20ca4205d364a9516fdd80df32"))
  /\ clobAuthStructHash sampleClobAuth
     = Ok (common.FromHex
             (str "0x4456a754bed1a62ca7b182b427a34f3dfeea2bfa5721b867a985fa620ca4c78f"))
  /\ getMessageHash sampleTypedData <> clobAuthStructHash sampleClobAuth.
Proof.
  split; [|split; [|split; [|split]]].
  - intros typedData; reflexivity.
  - intros; reflexivity.
  - vm_compute; reflexivity.
  - vm_compute; reflexivity.
  - vm_compute; discriminate.
Qed.

(** ** The stand-in meets the two conventions *)

Lemma be_bytes_length (n : nat) (z : Z) : length (big.be_bytes n z) = n.
Proof.
  revert z; induction n as [|n IH]; intros z; cbn [big.be_bytes].
  - reflexivity.
  - rewrite length_app, IH; cbn [length]; lia.
Qed.

Lemma stub_Sign_format : @Sign_format stubCrypto.
Proof.
  intros hash key sig; unfold Sign, stubCrypto.
  destruct (Nat.eqb_spec (length hash) 32) as [Hlen|_]; [|discriminate].
  intros Hsig.
  assert (Heq : sig = hash ++ big.be_bytes 32 key ++ [x00]) by congruence.
  subst sig; clear Hsig; split.
  - rewrite !length_app, be_bytes_length, Hlen; reflexivity.
  - left. rewrite app_assoc, app_nth2;
      rewrite length_app, be_bytes_length, Hlen; [reflexivity|lia].
Qed.

Lemma stub_SigToPub_recovery_id : @SigToPub_recovery_id stubCrypto.
Proof.
  intros hash sig Hlen Hv; cbn [SigToPub stubCrypto].
  rewrite Hlen; cbn [Nat.eqb negb].
  destruct Hv as [Hv|Hv]; rewrite Hv; eexists; reflexivity.
Qed.

(** ** The theorems at concrete inputs *)

Lemma getDomainSeparator_chainId_abs_witness :
  in_int64 (-137)
  /\ getDomainSeparator (EIP712Domain.mk (str "ClobAuthDomain") (str "1") (-137) [] [])
     = Ok (domainSeparatorOf (str "ClobAuthDomain") (str "1") 137)
  /\ getDomainSeparator
       (EIP712Domain.mk (str "ClobAuthDomain") (str "1") (neg64 (-137)) [] [])
     = getDomainSeparator
         (EIP712Domain.mk (str "ClobAuthDomain") (str "1") (-137) [] []).
Proof.
  assert (Hc : in_int64 (-137)) by (unfold in_int64; lia).
  split; [exact Hc|].
  exact (getDomainSeparator_chainId_abs
           (str "ClobAuthDomain") (str "1") [] [] (-137) Hc).
Defined.

Lemma BuildClobEip712Signature_digest_witness :
  in_int64 137 /\ in_uint64 0
  /\ @clobAuthHash stubCrypto 7 137 1700000000 0
     = Ok (signingDigestOf
             (domainSeparatorOf (str "ClobAuthDomain") (str "1") (Z.abs 137))
             (clobAuthStructHashOf (@PubkeyToAddress stubCrypto 7)
                (fmt.Sprintf_d 1700000000) 0 MSG_TO_SIGN)).
Proof.
  assert (Hc : in_int64 137) by (unfold in_int64; lia).
  assert (Hn : in_uint64 0) by (unfold in_uint64; lia).
  split; [exact Hc|split; [exact Hn|]].
  exact (proj1 (@BuildClobEip712Signature_digest stubCrypto 7 137 1700000000 0 Hc Hn)).
Defined.

Lemma recover_rejects_wrong_length_witness :
  hexutil.Decode shortSignatureHex = Ok (repeat x00 64)
  /\ @RecoverAddress stubCrypto (repeat x00 32) shortSignatureHex
     = Err (New "signature must be 65 bytes long")
  /\ @RecoverAddressFromMessage stubCrypto (str "hello") shortSignatureHex
     = Err (New "signature must be 65 bytes long").
Proof.
  assert (Hdec : hexutil.Decode shortSignatureHex = Ok (repeat x00 64))
    by (vm_compute; reflexivity).
  assert (Hlen : length (repeat x00 64) <> 65%nat) by (vm_compute; discriminate).
  split; [exact Hdec|].
  exact (@recover_rejects_wrong_length stubCrypto (repeat x00 32) (str "hello")
           shortSignatureHex (repeat x00 64) Hdec Hlen).
Defined.

Lemma signers_recovery_byte_witness :
  @returnsSignatureWithV (@SignHash stubCrypto sampleWallet (repeat x00 32)) x00 x01.
Proof.
  refine (proj1 (@signers_recovery_byte stubCrypto stub_Sign_format sampleWallet 7
                   (repeat x00 32) (str "hello") sampleTypedData
                   137 1700000000 0) _ _).
  vm_compute; reflexivity.
Defined.

Lemma recover_refuses_standard_v_witness :
  exists e, @RecoverAddress stubCrypto (repeat x00 32)
              (hexutil.Encode (repeat x00 64 ++ [x1b]))
            = Err (Wrap "failed to recover public key" e).
Proof.
  refine (proj1 (proj2 (@recover_refuses_standard_v stubCrypto
                          stub_SigToPub_recovery_id (repeat x00 32) (str "hello")
                          (hexutil.Encode (repeat x00 64 ++ [x1b]))
                          (repeat x00 64 ++ [x1b]) _ _ _))).
  - vm_compute; reflexivity.
  - reflexivity.
  - right; right; left; reflexivity.
Defined.

Lemma recover_of_built_signature_fails_witness :
  exists signatureHex e,
    @BuildClobEip712Signature stubCrypto 7 137 1700000000 0 = Ok signatureHex
    /\ exists hash,
         @clobAuthHash stubCrypto 7 137 1700000000 0 = Ok hash
         /\ @RecoverAddress stubCrypto hash signatureHex
            = Err (Wrap "failed to recover public key" e).
Proof.
  assert (Hh : exists hash, @clobAuthHash stubCrypto 7 137 1700000000 0 = Ok hash)
    by (vm_compute; eexists; reflexivity).
  destruct Hh as [hash Hh].
  assert (Hs : exists sig0, @Sign stubCrypto hash 7 = Ok sig0).
  { assert (Hlen : length hash = 32%nat).
    { revert Hh; unfold clobAuthHash.
      destruct (wrapErr _ (getDomainSeparator _)); try discriminate.
      destruct (wrapErr _ (getTypeHash _)); try discriminate.
      destruct (wrapErr _ (encodeClobAuthData _)); try discriminate.
      cbn [bind]; intros Heq; injection Heq as <-; apply Keccak256_length. }
    cbn [Sign stubCrypto]; rewrite Hlen; eexists; reflexivity. }
  destruct Hs as [sig0 Hs].
  destruct (@recover_of_built_signature_fails stubCrypto stub_Sign_format
              stub_SigToPub_recovery_id 7 137 1700000000 0 hash sig0 Hh Hs)
    as [signatureHex [e [Hb Hr]]].
  exists signatureHex, e; split; [exact Hb|].
  exists hash; split; [exact Hh|exact Hr].
Defined.

Lemma GetAddressHex_checksum_form_witness :
  length (@address curveCrypto keyOneWallet) = 20%nat
  /\ exists body,
       @GetAddressHex curveCrypto keyOneWallet = str "0x" ++ body
       /\ length body = 40%nat
       /\ map toLower body
          = hex.EncodeToString (@address curveCrypto keyOneWallet)
       /\ common.HexToAddress (@GetAddressHex curveCrypto keyOneWallet)
          = @address curveCrypto keyOneWallet
       /\ (forall i, (i < 40)%nat ->
             nth i body x00
             = eip55Char
                 (hex.EncodeToString (@address curveCrypto keyOneWallet)) i).
Proof.
  assert (Hlen : length (@address curveCrypto keyOneWallet) = 20%nat)
    by (vm_compute; reflexivity).
  split; [exact Hlen|].
  exact (@GetAddressHex_checksum_form curveCrypto keyOneWallet Hlen).
Defined.

(** C7 as stated fails: for the wallet of the private key 1, which
    [NewWalletFromHex] builds from the key's text, the address comes out with
    upper-case digits, not as its lower-case hex form. *)
Lemma GetAddressHex_not_lower_case :
  @NewWalletFromHex curveCrypto curveKeyCodec keyOneHex = Ok keyOneWallet
  /\ @GetAddressHex curveCrypto keyOneWallet
     = str "0x7E5F4552091A69125d5DfCb7b8C2659029395Bdf"
  /\ hexutil.Encode (@GetAddress curveCrypto keyOneWallet)
     = str "0x7e5f4552091a69125d5dfcb7b8c2659029395bdf"
  /\ @GetAddressHex curveCrypto keyOneWallet
     <> hexutil.Encode (@GetAddress curveCrypto keyOneWallet).
Proof.
  split; [reflexivity|].
  split; [vm_compute; reflexivity|split; [vm_compute; reflexivity|]].
  vm_compute; discriminate.
Qed.

Lemma BuildClobEip712Signature_wire_format_witness :
  exists digits,
    @BuildClobEip712Signature stubCrypto 7 137 1700000000 0 = Ok (str "0x" ++ digits)
    /\ length digits = 130%nat
    /\ Forall (fun c => isLowerHexDigit c = true) digits.
Proof.
  assert (Hh : exists hash, @clobAuthHash stubCrypto 7 137 1700000000 0 = Ok hash)
    by (vm_compute; eexists; reflexivity).
  destruct Hh as [hash Hh].
  assert (Hs : exists sig0, @Sign stubCrypto hash 7 = Ok sig0).
  { assert (Hlen : length hash = 32%nat).
    { revert Hh; unfold clobAuthHash.
      destruct (wrapErr _ (getDomainSeparator _)); try discriminate.
      destruct (wrapErr _ (getTypeHash _)); try discriminate.
      destruct (wrapErr _ (encodeClobAuthData _)); try discriminate.
      cbn [bind]; intros Heq; injection Heq as <-; apply Keccak256_length. }
    cbn [Sign stubCrypto]; rewrite Hlen; eexists; reflexivity. }
  destruct Hs as [sig0 Hs].
  exact (@BuildClobEip712Signature_wire_format stubCrypto stub_Sign_format
           7 137 1700000000 0 hash sig0 Hh Hs).
Defined.

Lemma recover_same_for_both_forms_witness :
  @RecoverAddress stubCrypto (repeat x00 32)
    (hexutil.Encode (repeat x00 64 ++ [x01]))
  = @RecoverAddress stubCrypto (repeat x00 32)
      (hexutil.Encode (repeat x00 64 ++ [x1c])).
Proof.
  exact (@recover_same_for_both_forms stubCrypto (repeat x00 32)
           (repeat x00 64 ++ [x01]) eq_refl (or_intror eq_refl)).
Defined.

(** * More of the package *)

(** ** Hex texts *)

Lemma fromHexChar_isHex (c : byte) :
  isHexCharacter c = true ->
  exists v, hex.fromHexChar c = Some v /\ 0 <= v < 16
            /\ nth (Z.to_nat v) hex.hextable x00 = toLower c.
Proof.
  destruct c; try discriminate; intros _; eexists;
    (split; [reflexivity|split; [vm_compute; split; congruence|reflexivity]]).
Qed.

Lemma fromHexChar_not_hex (c : byte) :
  isHexCharacter c = false -> hex.fromHexChar c = None.
Proof. destruct c; try discriminate; intros _; reflexivity. Qed.

Lemma nibbles_of_byte (a b : Z) :
  0 <= a < 16 -> 0 <= b < 16 ->
  hex.EncodeToString [byte_of_Z (Z.lor (Z.shiftl a 4) b)]
  = [nth (Z.to_nat a) hex.hextable x00; nth (Z.to_nat b) hex.hextable x00].
Proof.
  intros Ha Hb.
  assert (Ha' : exists n, (n < 16)%nat /\ a = Z.of_nat n)
    by (exists (Z.to_nat a); lia).
  assert (Hb' : exists n, (n < 16)%nat /\ b = Z.of_nat n)
    by (exists (Z.to_nat b); lia).
  destruct Ha' as [n [Hn ->]]; destruct Hb' as [m [Hm ->]].
  do 16 (destruct n as [|n]; [do 16 (destruct m as [|m]; [reflexivity|]); lia|]).
  lia.
Qed.

Lemma pair_induction (P : list byte -> Prop) :
  P [] -> (forall a, P [a]) -> (forall a b l, P l -> P (a :: b :: l)) ->
  forall l, P l.
Proof.
  intros H0 H1 H2 l.
  assert (Hboth : P l /\ forall a, P (a :: l)).
  { induction l as [|b l [IHl IHbl]]; split; auto. }
  apply Hboth.
Qed.

Lemma isHex_cons2 (a b : byte) (l : list byte) :
  isHex (a :: b :: l) = isHexCharacter a && (isHexCharacter b && isHex l).
Proof.
  unfold isHex; cbn [length forallb].
  rewrite Nat.odd_succ, Nat.even_succ.
  destruct (Nat.odd (length l)); [|reflexivity].
  destruct (isHexCharacter a), (isHexCharacter b); reflexivity.
Qed.

(** Decoding succeeds exactly on an even number of hex characters, and then
    encoding the bytes gives the text back in lower case. *)
Lemma hex_decode_isHex (s : list byte) :
  isHex s = true ->
  exists b, hex.DecodeString s = (b, None)
            /\ (2 * length b = length s)%nat
            /\ hex.EncodeToString b = map toLower s.
Proof.
  induction s as [| a | a c l IH] using pair_induction.
  - intros _; exists []; repeat split.
  - discriminate.
  - rewrite isHex_cons2; intros Hh.
    apply andb_prop in Hh; destruct Hh as [Ha Hh].
    apply andb_prop in Hh; destruct Hh as [Hc Hl].
    destruct (IH Hl) as [b [Hdec [Hlen Henc]]].
    destruct (fromHexChar_isHex a Ha) as [va [Hva [Hra Hta]]].
    destruct (fromHexChar_isHex c Hc) as [vc [Hvc [Hrc Htc]]].
    exists (byte_of_Z (Z.lor (Z.shiftl va 4) vc) :: b).
    cbn [hex.DecodeString]; rewrite Hva, Hvc, Hdec.
    split; [reflexivity|split].
    + cbn [length]; lia.
    + change (hex.EncodeToString (byte_of_Z (Z.lor (Z.shiftl va 4) vc) :: b))
        with (hex.EncodeToString [byte_of_Z (Z.lor (Z.shiftl va 4) vc)]
              ++ hex.EncodeToString b).
      rewrite nibbles_of_byte, Henc, Hta, Htc by assumption; reflexivity.
Qed.

Lemma hex_decode_not_isHex (s : list byte) :
  isHex s = false ->
  exists b e, hex.DecodeString s = (b, Some e)
              /\ (e = hex_ErrLength \/ exists c, e = hex_InvalidByteError c).
Proof.
  induction s as [| a | a c l IH] using pair_induction.
  - discriminate.
  - intros _; cbn [hex.DecodeString].
    destruct (hex.fromHexChar a); do 2 eexists; split; eauto.
  - rewrite isHex_cons2; intros Hh; cbn [hex.DecodeString].
    destruct (isHexCharacter a) eqn:Ha.
    + destruct (fromHexChar_isHex a Ha) as [va [Hva _]]; rewrite Hva.
      destruct (isHexCharacter c) eqn:Hc.
      * destruct (fromHexChar_isHex c Hc) as [vc [Hvc _]]; rewrite Hvc.
        destruct (IH Hh) as [b [e [Hdec He]]]; rewrite Hdec.
        do 2 eexists; split; [reflexivity|exact He].
      * rewrite (fromHexChar_not_hex c Hc).
        do 2 eexists; split; eauto.
    + rewrite (fromHexChar_not_hex a Ha).
      do 2 eexists; split; eauto.
Qed.

(** The byte an invalid text is refused for is its first character that is
    not a hex digit. *)
Lemma hex_decode_first_invalid (pre : list byte) (c : byte) (post : list byte) :
  forallb isHexCharacter pre = true -> isHexCharacter c = false ->
  exists b, hex.DecodeString (pre ++ c :: post)
            = (b, Some (hex_InvalidByteError c)).
Proof.
  intros Hpre Hc; pose proof (fromHexChar_not_hex c Hc) as Hnc.
  induction pre as [| a | a d l IH] using pair_induction.
  - cbn [app hex.DecodeString].
    destruct post as [|q rest]; rewrite Hnc; eexists; reflexivity.
  - cbn [forallb] in Hpre; rewrite andb_true_r in Hpre.
    destruct (fromHexChar_isHex a Hpre) as [va [Hva _]].
    cbn [app hex.DecodeString]; rewrite Hva, Hnc; eexists; reflexivity.
  - cbn [forallb] in Hpre.
    apply andb_prop in Hpre; destruct Hpre as [Ha Hpre].
    apply andb_prop in Hpre; destruct Hpre as [Hd Hl].
    destruct (fromHexChar_isHex a Ha) as [va [Hva _]].
    destruct (fromHexChar_isHex d Hd) as [vd [Hvd _]].
    destruct (IH Hl) as [b Hb].
    cbn [app hex.DecodeString]; rewrite Hva, Hvd, Hb; eexists; reflexivity.
Qed.

Lemma hex_decode_odd (s : list byte) :
  forallb isHexCharacter s = true -> Nat.odd (length s) = true ->
  exists b, hex.DecodeString s = (b, Some hex_ErrLength).
Proof.
  induction s as [| a | a d l IH] using pair_induction.
  - discriminate.
  - cbn [forallb]; rewrite andb_true_r; intros Ha _.
    destruct (fromHexChar_isHex a Ha) as [va [Hva _]].
    cbn [hex.DecodeString]; rewrite Hva; eexists; reflexivity.
  - cbn [forallb length]; rewrite Nat.odd_succ, Nat.even_succ; intros Hs Hodd.
    apply andb_prop in Hs; destruct Hs as [Ha Hs].
    apply andb_prop in Hs; destruct Hs as [Hd Hl].
    destruct (fromHexChar_isHex a Ha) as [va [Hva _]].
    destruct (fromHexChar_isHex d Hd) as [vd [Hvd _]].
    destruct (IH Hl Hodd) as [b Hb].
    cbn [hex.DecodeString]; rewrite Hva, Hvd, Hb; eexists; reflexivity.
Qed.

Lemma hexutil_Decode_prefixed (s : list byte) :
  hexutil.has0xPrefix s = true ->
  hexutil.Decode s
  = match hex.DecodeString (skipn 2 s) with
    | (b, None) => Ok b
    | (_, Some e) => Err (hexutil.mapError e)
    end.
Proof.
  intros Hp; unfold hexutil.Decode; rewrite Hp.
  destruct s; [discriminate|reflexivity].
Qed.

Lemma hexutil_Decode_no_prefix (s : list byte) :
  hexutil.has0xPrefix s = false ->
  hexutil.Decode s = Err hexutil.ErrEmptyString
  \/ hexutil.Decode s = Err hexutil.ErrMissingPrefix.
Proof.
  intros Hp; unfold hexutil.Decode; rewrite Hp.
  destruct s; auto.
Qed.

Lemma isPrefixedHex_decodes (n : nat) (s : list byte) :
  isPrefixedHex (2 * n) s = true ->
  exists b, hexutil.Decode s = Ok b /\ length b = n
            /\ hex.EncodeToString b = map toLower (skipn 2 s).
Proof.
  unfold isPrefixedHex; intros Hs.
  apply andb_prop in Hs; destruct Hs as [Hs Hall].
  apply andb_prop in Hs; destruct Hs as [Hp Hlen].
  apply Nat.eqb_eq in Hlen.
  assert (Hhex : isHex (skipn 2 s) = true).
  { unfold isHex; rewrite Hlen, Hall.
    replace (Nat.odd (2 * n)) with false; [reflexivity|].
    symmetry; rewrite <- Nat.negb_even, Nat.even_mul; reflexivity. }
  destruct (hex_decode_isHex _ Hhex) as [b [Hdec [Hb Henc]]].
  exists b; rewrite hexutil_Decode_prefixed, Hdec by exact Hp.
  repeat split; [lia|exact Henc].
Qed.

Lemma not_isPrefixedHex_decode (n : nat) (s : list byte) :
  isPrefixedHex (2 * n) s = false ->
  (exists e, hexutil.Decode s = Err e)
  \/ (exists b, hexutil.Decode s = Ok b /\ length b <> n).
Proof.
  unfold isPrefixedHex; intros Hs.
  destruct (hexutil.has0xPrefix s) eqn:Hp.
  - rewrite hexutil_Decode_prefixed by exact Hp.
    destruct (isHex (skipn 2 s)) eqn:Hhex.
    + destruct (hex_decode_isHex _ Hhex) as [b [Hdec [Hb _]]]; rewrite Hdec.
      right; exists b; split; [reflexivity|].
      intros Hn. cbn [andb] in Hs.
      assert (Hall : forallb isHexCharacter (skipn 2 s) = true).
      { unfold isHex in Hhex.
        destruct (Nat.odd (length (skipn 2 s))); [discriminate|exact Hhex]. }
      rewrite Hall, andb_true_r in Hs.
      apply Nat.eqb_neq in Hs; lia.
    + destruct (hex_decode_not_isHex _ Hhex) as [b [e [Hdec _]]]; rewrite Hdec.
      left; eexists; reflexivity.
  - left; destruct (hexutil_Decode_no_prefix s Hp) as [H|H]; rewrite H; eauto.
Qed.

(** ** Signature texts and recovery *)

Section RecoveryShape.
Context `{Crypto}.

(** The two recovery functions differ only in who hashes: recovery from a
    message is recovery from keccak256 of the message, with no prefix added;
    and verification is that recovery followed by a comparison, its errors
    passed on as they are. *)
Theorem recover_from_message_is_recover_of_hash :
  forall (message signature : list byte) (expectedAddress : common.Address),
    RecoverAddressFromMessage message signature
    = RecoverAddress (Keccak256 message) signature
    /\ (VerifyMessageSignature message signature expectedAddress = Ok true
        <-> RecoverAddress (Keccak256 message) signature = Ok expectedAddress)
    /\ (forall e, RecoverAddress (Keccak256 message) signature = Err e ->
                  VerifyMessageSignature message signature expectedAddress
                  = Err e).
Proof.
  intros message signature expectedAddress.
  assert (Heq : RecoverAddressFromMessage message signature
                = RecoverAddress (Keccak256 message) signature) by reflexivity.
  split; [exact Heq|].
  unfold VerifyMessageSignature; rewrite Heq.
  destruct (RecoverAddress (Keccak256 message) signature) as [a|e|m];
    cbn [bind]; split.
  - split; intros Hv.
    + injection Hv as Hv; apply bytes_eqb_eq in Hv; congruence.
    + injection Hv as ->; rewrite bytes_eqb_refl; reflexivity.
  - intros e He; discriminate He.
  - split; intros Hv; discriminate Hv.
  - intros e' He'; injection He' as ->; reflexivity.
  - split; intros Hv; discriminate Hv.
  - intros e He; discriminate He.
Qed.

(** A signature text reaches [crypto.SigToPub] exactly when it is 0x (or 0X)
    followed by 130 hex digits of either case; any other text gets the decode
    error or the length error, the same one from [RecoverAddress],
    [RecoverAddressFromMessage] and [VerifyMessageSignature]. *)
Theorem signature_text_accepted :
  forall (hash message signature : list byte) (expectedAddress : common.Address),
    (isPrefixedHex 130 signature = true ->
     exists sig,
       hexutil.Decode signature = Ok sig /\ length sig = 65%nat
       /\ RecoverAddress hash signature
          = (pubkey <- wrapErr "failed to recover public key"
                         (SigToPub hash (adjustRecoveryByte sig)) ;;
             Ok (PubkeyToAddress pubkey)))
    /\ (isPrefixedHex 130 signature = false ->
        exists e,
          (e = New "signature must be 65 bytes long"
           \/ exists e', e = Wrap "failed to decode signature" e')
          /\ RecoverAddress hash signature = Err e
          /\ RecoverAddressFromMessage message signature = Err e
          /\ VerifyMessageSignature message signature expectedAddress = Err e).
Proof.
  intros hash message signature expectedAddress; split; intros Hshape.
  - destruct (isPrefixedHex_decodes 65 signature Hshape) as [sig [Hdec [Hlen _]]].
    exists sig; split; [exact Hdec|split; [exact Hlen|]].
    unfold RecoverAddress; rewrite Hdec; cbn [wrapErr bind].
    rewrite Hlen; reflexivity.
  - unfold VerifyMessageSignature, RecoverAddressFromMessage, RecoverAddress.
    destruct (not_isPrefixedHex_decode 65 signature Hshape)
      as [[e He]|[b [Hb Hlen]]].
    + exists (Wrap "failed to decode signature" e); rewrite He.
      split; [right; eexists; reflexivity|repeat split].
    + exists (New "signature must be 65 bytes long"); rewrite Hb.
      cbn [wrapErr bind].
      destruct (Nat.eqb_spec (length b) 65) as [Heq|_]; [contradiction|].
      split; [left; reflexivity|repeat split].
Qed.

End RecoveryShape.

(** ** Address texts *)

Lemma checksum_char_isHex (c : byte) (up : bool) :
  isLowerHexDigit c = true ->
  isHexCharacter (if (57 <? byte_to_Z c) && up then sub8 c 32 else c) = true.
Proof.
  destruct c; try discriminate; intros _; destruct up; reflexivity.
Qed.

Lemma checksumLoop_isHex (hash buf : list byte) (i : nat) :
  Forall (fun c => isLowerHexDigit c = true) buf ->
  forallb isHexCharacter (common.checksumLoop hash i buf) = true.
Proof.
  intros Hbuf; revert i; induction Hbuf as [|c buf Hc Hbuf IH]; intros i;
    cbn [common.checksumLoop forallb].
  - reflexivity.
  - rewrite IH, checksum_char_isHex by exact Hc; reflexivity.
Qed.

Lemma lower_hex_isHex (buf : list byte) :
  Forall (fun c => isLowerHexDigit c = true) buf ->
  forallb isHexCharacter buf = true.
Proof.
  induction 1 as [|c buf Hc Hbuf IH]; cbn [forallb]; [reflexivity|].
  rewrite IH, andb_true_r.
  destruct c; try discriminate; reflexivity.
Qed.

Lemma IsHexAddress_prefixed (body : list byte) :
  length body = 40%nat -> forallb isHexCharacter body = true ->
  IsHexAddress (str "0x" ++ body) = true.
Proof.
  intros Hlen Hall; unfold IsHexAddress, isHex.
  change (str "0x" ++ body) with (x30 :: x78 :: body).
  cbn [hexutil.has0xPrefix skipn].
  change (byte_eqb x30 x30 && (byte_eqb x78 x78 || byte_eqb x78 x58)) with true.
  cbv iota. rewrite Hlen, Hall; reflexivity.
Qed.

Lemma ValidateAddress_Hex (a : common.Address) :
  length a = 20%nat -> ValidateAddress (common.Hex a) = Ok tt.
Proof.
  intros Hlen; unfold ValidateAddress, common.Hex.
  rewrite IsHexAddress_prefixed; auto.
  - rewrite checksumLoop_length, hex_encode_length; lia.
  - apply checksumLoop_isHex, hex_encode_lower.
Qed.

(** [ValidateAddress] accepts the text [common.Address.Hex] writes for twenty
    bytes, and the plain lower-case text as well: the checksum case is not
    checked. *)
Theorem ValidateAddress_accepts_address_text :
  forall (a : common.Address),
    length a = 20%nat ->
    ValidateAddress (common.Hex a) = Ok tt
    /\ ValidateAddress (hexutil.Encode a) = Ok tt.
Proof.
  intros a Hlen; split; [apply ValidateAddress_Hex; exact Hlen|].
  unfold ValidateAddress, hexutil.Encode.
  rewrite IsHexAddress_prefixed; auto.
  - rewrite hex_encode_length; lia.
  - apply lower_hex_isHex, hex_encode_lower.
Qed.

(** What [ValidateAddress] accepts is forty hex digits after an optional 0x
    or 0X, and [common.HexToAddress] reads such a text without loss: the
    lower-case hex of the address is the lower-cased digits.  Every other text
    gets the one error. *)
Theorem ValidateAddress_accepted_text :
  forall (addressHex : list byte),
    let digits := if hexutil.has0xPrefix addressHex
                  then skipn 2 addressHex else addressHex in
    (ValidateAddress addressHex = Ok tt
     /\ length digits = 40%nat
     /\ forallb isHexCharacter digits = true
     /\ hex.EncodeToString (common.HexToAddress addressHex) = map toLower digits)
    \/ (ValidateAddress addressHex = Err (New "invalid address format")
        /\ (length digits <> 40%nat \/ forallb isHexCharacter digits = false)).
Proof.
  intros addressHex digits; unfold ValidateAddress, IsHexAddress.
  fold digits. unfold common.AddressLength.
  destruct (Nat.eqb_spec (length digits) (2 * 20)) as [Hlen|Hlen]; cbn [andb].
  - unfold isHex; rewrite Hlen.
    change (Nat.odd (2 * 20)) with false; cbv iota.
    destruct (forallb isHexCharacter digits) eqn:Hall; cbn [negb].
    + left; split; [reflexivity|split; [reflexivity|split; [reflexivity|]]].
      assert (Hhex : isHex digits = true).
      { unfold isHex; rewrite Hlen; exact Hall. }
      destruct (hex_decode_isHex digits Hhex) as [b [Hdec [Hb Henc]]].
      unfold common.HexToAddress, common.FromHex, common.Hex2Bytes.
      fold digits; rewrite Hlen.
      change (Nat.odd (2 * 20)) with false; cbv iota.
      rewrite Hdec; cbn [fst].
      rewrite BytesToAddress_id by lia. exact Henc.
    + right; split; [reflexivity|right; reflexivity].
  - right; split; [reflexivity|left; exact Hlen].
Qed.

Section SignMessageHash.
Context `{Crypto}.

(** [SignMessage] signs keccak256 of the message as it is, with no prefix:
    whenever signing succeeds it returns what [SignHash] returns for that hash,
    and a signing error differs only by the text wrapped around it. *)
Theorem SignMessage_is_SignHash_of_hash :
  forall (w : Wallet) (message : list byte),
    (forall signatureHex,
        SignMessage w message = Ok signatureHex
        <-> SignHash w (Keccak256 message) = Ok signatureHex)
    /\ (forall e,
           Sign (Keccak256 message) (privateKey w) = Err e ->
           SignMessage w message = Err (Wrap "failed to sign message" e)
           /\ SignHash w (Keccak256 message) = Err (Wrap "failed to sign hash" e)).
Proof.
  intros w message; unfold SignMessage, SignHash; split.
  - intros signatureHex.
    destruct (Sign (Keccak256 message) (privateKey w)); cbn [wrapErr bind];
      split; intros Hs; try discriminate Hs; exact Hs.
  - intros e He; rewrite He; split; reflexivity.
Qed.

End SignMessageHash.

(** ** Private keys in hex, and the wallets built from them *)

Lemma trim0x_prefixed (s : list byte) : trim0x (str "0x" ++ s) = s.
Proof. reflexivity. Qed.

Lemma trim0x_other (s : list byte) :
  bytes_eqb (firstn 2 s) (str "0x") = false -> trim0x s = s.
Proof.
  intros Hs; unfold trim0x; rewrite Hs, andb_false_r; reflexivity.
Qed.

Section KeyTexts.
Context `{KeyCodec}.

Lemma HexToECDSA_isHex (s : list byte) :
  isHex s = true ->
  exists d, (2 * length d = length s)%nat
            /\ hex.EncodeToString d = map toLower s
            /\ HexToECDSA s = ToECDSA d.
Proof.
  intros Hs; destruct (hex_decode_isHex s Hs) as [d [Hdec [Hlen Henc]]].
  exists d; unfold HexToECDSA; rewrite Hdec; auto.
Qed.

Lemma HexToECDSA_first_invalid (pre : list byte) (c : byte) (post : list byte) :
  forallb isHexCharacter pre = true -> isHexCharacter c = false ->
  HexToECDSA (pre ++ c :: post) = Err (invalidHexCharacter c).
Proof.
  intros Hpre Hc.
  destruct (hex_decode_first_invalid pre c post Hpre Hc) as [b Hdec].
  unfold HexToECDSA; rewrite Hdec; reflexivity.
Qed.

Lemma HexToECDSA_odd (s : list byte) :
  forallb isHexCharacter s = true -> Nat.odd (length s) = true ->
  HexToECDSA s = Err (New "invalid hex data for private key").
Proof.
  intros Hs Hodd; destruct (hex_decode_odd s Hs Hodd) as [b Hdec].
  unfold HexToECDSA; rewrite Hdec; reflexivity.
Qed.

(** A key text reaches [crypto.ToECDSA] exactly when, after one leading
    lower-case 0x is taken off, it is an even number of hex digits; the bytes
    handed over are the digits read in either case.  A text with a character
    that is no hex digit is refused with [crypto.HexToECDSA]'s error that
    quotes the first such character; an odd number of hex digits is refused
    with its other error.  [HexToPrivateKey] and [ValidatePrivateKey] return
    these errors as they are and [NewWalletFromHex] wraps them. *)
Theorem key_text_accepted :
  forall (privateKeyHex : list byte),
    (isHex (trim0x privateKeyHex) = true ->
     exists d,
       (2 * length d = length (trim0x privateKeyHex))%nat
       /\ hex.EncodeToString d = map toLower (trim0x privateKeyHex)
       /\ HexToPrivateKey privateKeyHex = ToECDSA d
       /\ NewWalletFromHex privateKeyHex
          = (privateKey <- wrapErr "failed to parse private key" (ToECDSA d) ;;
             Ok (NewWalletFromPrivateKey privateKey)))
    /\ (forall pre c post,
          trim0x privateKeyHex = pre ++ c :: post ->
          forallb isHexCharacter pre = true ->
          isHexCharacter c = false ->
          exists e,
            e = New ("invalid hex character "
                     ++ string_of_list_byte (fmt.Sprintf_q c)
                     ++ " in private key")%string
            /\ HexToPrivateKey privateKeyHex = Err e
            /\ ValidatePrivateKey privateKeyHex = Err e
            /\ NewWalletFromHex privateKeyHex
               = Err (Wrap "failed to parse private key" e))
    /\ (forallb isHexCharacter (trim0x privateKeyHex) = true ->
        Nat.odd (length (trim0x privateKeyHex)) = true ->
        exists e,
          e = New "invalid hex data for private key"
          /\ HexToPrivateKey privateKeyHex = Err e
          /\ ValidatePrivateKey privateKeyHex = Err e
          /\ NewWalletFromHex privateKeyHex
             = Err (Wrap "failed to parse private key" e)).
Proof.
  intros s; unfold ValidatePrivateKey, NewWalletFromHex, HexToPrivateKey.
  split; [|split].
  - intros Hs; destruct (HexToECDSA_isHex _ Hs) as [d [Hlen [Henc Hd]]].
    exists d; rewrite Hd; auto.
  - intros pre c post Hsplit Hpre Hc.
    rewrite Hsplit, (HexToECDSA_first_invalid pre c post Hpre Hc).
    eexists; split; [reflexivity|]; auto.
  - intros Hs Hodd; rewrite (HexToECDSA_odd _ Hs Hodd).
    eexists; split; [reflexivity|]; auto.
Qed.

(** The lower-case 0x is optional in a key text, and it is taken off once;
    an upper-case 0X is not a prefix here: such a text is always refused, for
    its character X. *)
Theorem key_text_prefix :
  forall (s : list byte),
    HexToPrivateKey (str "0x" ++ s) = HexToECDSA s
    /\ NewWalletFromHex (str "0x" ++ s)
       = (privateKey <- wrapErr "failed to parse private key" (HexToECDSA s) ;;
          Ok (NewWalletFromPrivateKey privateKey))
    /\ (bytes_eqb (firstn 2 s) (str "0x") = false ->
        HexToPrivateKey s = HexToPrivateKey (str "0x" ++ s)
        /\ NewWalletFromHex s = NewWalletFromHex (str "0x" ++ s)
        /\ ValidatePrivateKey s = ValidatePrivateKey (str "0x" ++ s))
    /\ HexToPrivateKey (str "0X" ++ s)
       = Err (New "invalid hex character 'X' in private key")
    /\ ValidatePrivateKey (str "0X" ++ s)
       = Err (New "invalid hex character 'X' in private key")
    /\ NewWalletFromHex (str "0X" ++ s)
       = Err (Wrap "failed to parse private key"
                (New "invalid hex character 'X' in private key")).
Proof.
  intros s.
  unfold ValidatePrivateKey, NewWalletFromHex, HexToPrivateKey.
  rewrite trim0x_prefixed.
  split; [reflexivity|split; [reflexivity|split]].
  - intros Hs; rewrite (trim0x_other s Hs); auto.
  - assert (Hx : HexToECDSA (trim0x (str "0X" ++ s))
                 = Err (New "invalid hex character 'X' in private key")).
    { change (trim0x (str "0X" ++ s)) with ([x30] ++ x58 :: s).
      rewrite (HexToECDSA_first_invalid [x30] x58 s) by reflexivity.
      reflexivity. }
    rewrite Hx; repeat split; reflexivity.
Qed.

(** Writing a key with [PrivateKeyToHex] and reading the text back gives the
    key, for every key that [crypto.ToECDSA] rebuilds from its own 32 bytes. *)
Theorem private_key_hex_round_trip :
  forall (privateKey : PrivateKey),
    ToECDSA (FromECDSA privateKey) = Ok privateKey ->
    HexToPrivateKey (PrivateKeyToHex privateKey) = Ok privateKey
    /\ ValidatePrivateKey (PrivateKeyToHex privateKey) = Ok tt
    /\ NewWalletFromHex (PrivateKeyToHex privateKey)
       = Ok (NewWalletFromPrivateKey privateKey).
Proof.
  intros k Hk.
  unfold ValidatePrivateKey, NewWalletFromHex, HexToPrivateKey, PrivateKeyToHex,
    hexutil.Encode.
  rewrite trim0x_prefixed; unfold HexToECDSA.
  rewrite hex_decode_encode, Hk; auto.
Qed.

(** Every wallet the package builds holds the address of its own key, twenty
    bytes, and the text [GetAddressHex] gives for it passes
    [ValidateAddress]. *)
Theorem wallet_constructors_invariant :
  let sound (w : Wallet) :=
    GetAddress w = PubkeyToAddress (PublicKeyOf (GetPrivateKey w))
    /\ length (GetAddress w) = 20%nat
    /\ ValidateAddress (GetAddressHex w) = Ok tt in
  (forall privateKey,
      GetPrivateKey (NewWalletFromPrivateKey privateKey) = privateKey
      /\ sound (NewWalletFromPrivateKey privateKey))
  /\ (forall privateKeyHex w,
         NewWalletFromHex privateKeyHex = Ok w ->
         HexToPrivateKey privateKeyHex = Ok (GetPrivateKey w) /\ sound w)
  /\ (forall generated w,
         NewRandomWallet generated = Ok w ->
         generated = Ok (GetPrivateKey w) /\ sound w).
Proof.
  intros sound.
  assert (Hnew : forall k, sound (NewWalletFromPrivateKey k)).
  { intros k; unfold sound, GetAddress, GetAddressHex, GetPrivateKey,
      NewWalletFromPrivateKey; cbn [address privateKey].
    split; [reflexivity|split; [apply PubkeyToAddress_length|]].
    apply ValidateAddress_Hex, PubkeyToAddress_length. }
  split; [|split].
  - intros k; split; [reflexivity|apply Hnew].
  - intros s w; unfold NewWalletFromHex, HexToPrivateKey.
    destruct (HexToECDSA (trim0x s)) as [k|e|m]; cbn [wrapErr bind];
      try discriminate.
    intros Hw; injection Hw as <-; split; [reflexivity|apply Hnew].
  - intros g w; unfold NewRandomWallet.
    destruct g as [k|e|m]; cbn [wrapErr bind]; try discriminate.
    intros Hw; injection Hw as <-; split; [reflexivity|apply Hnew].
Qed.

End KeyTexts.

(** ** The struct encoding and the typed-data hash *)

Lemma be32_length (n : Z) : length (be32 n) = 32%nat.
Proof. reflexivity. Qed.

(** [encodeClobAuthData] refuses nothing: for every address text, hex or not,
    and every timestamp, message and uint64 nonce it returns the four 32-byte
    slots, 128 bytes, the first slot being twelve zero bytes and whatever
    [common.HexToAddress] reads from the text. *)
Theorem encodeClobAuthData_slots :
  forall (data : ClobAuthData.t),
    in_uint64 (ClobAuthData.Nonce data) ->
    exists enc,
      encodeClobAuthData data = Ok enc
      /\ length enc = 128%nat
      /\ enc = (repeat x00 12 ++ common.HexToAddress (ClobAuthData.Address data))
               ++ Keccak256 (ClobAuthData.Timestamp data)
               ++ be32 (ClobAuthData.Nonce data)
               ++ Keccak256 (ClobAuthData.Message data).
Proof.
  intros data Hn; unfold encodeClobAuthData.
  rewrite FillBytes_uint64 by exact Hn; cbn [bind].
  assert (Ha : length (common.HexToAddress (ClobAuthData.Address data)) = 20%nat)
    by apply BytesToAddress_length.
  rewrite address_slot by exact Ha.
  eexists; split; [reflexivity|split].
  - rewrite !length_app, !Keccak256_length, be32_length, Ha, repeat_length.
    reflexivity.
  - repeat rewrite <- app_assoc; reflexivity.
Qed.

Section TypedDataHash.
Context `{Crypto}.

(** Whatever [getMessageHash] gives for the message, the typed-data hash is
    keccak256(0x19 0x01 || domain separator || message hash), with the same
    separator as the canonical path: name, version and the magnitude of the
    chain id.  The salt and the verifying contract of the domain are not read,
    and [SignTypedData] hands exactly this digest to [crypto.Sign]. *)
Theorem getTypedDataHash_framing :
  forall (typedData : TypedData.t) (messageHash : common.Hash) (key : PrivateKey),
    in_int64 (EIP712Domain.ChainID (TypedData.Domain typedData)) ->
    getMessageHash typedData = Ok messageHash ->
    let domain := TypedData.Domain typedData in
    let digest :=
      signingDigestOf
        (domainSeparatorOf (EIP712Domain.Name domain) (EIP712Domain.Version domain)
           (Z.abs (EIP712Domain.ChainID domain)))
        messageHash in
    getTypedDataHash typedData = Ok digest
    /\ SignTypedData key typedData
       = (signature <- wrapErr "failed to sign hash" (Sign digest key) ;;
          Ok (hexutil.Encode signature)).
Proof.
  intros typedData messageHash key Hc Hm domain digest.
  assert (Hh : getTypedDataHash typedData = Ok digest).
  { unfold getTypedDataHash.
    rewrite getDomainSeparator_eq by exact Hc.
    cbn [bind]; rewrite Hm; cbn [bind concat].
    rewrite app_nil_r; reflexivity. }
  split; [exact Hh|].
  unfold SignTypedData; rewrite Hh; reflexivity.
Qed.

End TypedDataHash.

(** ** The request message *)

Lemma fmtInteger_acc (fuel : nat) (n : Z) (acc : list byte) :
  fmt.fmtInteger fuel n acc = fmt.fmtInteger fuel n [] ++ acc.
Proof.
  revert n acc; induction fuel as [|fuel IH]; intros n acc;
    cbn [fmt.fmtInteger].
  - reflexivity.
  - destruct (n <? 10); [reflexivity|].
    rewrite IH, (IH _ [_]), <- app_assoc; reflexivity.
Qed.

Lemma fmtInteger_fuel (fuel : nat) (n : Z) (acc : list byte) :
  0 <= n < 10 ^ Z.of_nat (S fuel) ->
  fmt.fmtInteger (S (S fuel)) n acc = fmt.fmtInteger (S fuel) n acc.
Proof.
  revert n acc; induction fuel as [|fuel IH]; intros n acc Hn.
  - cbn [fmt.fmtInteger].
    destruct (Z.ltb_spec n 10) as [_|Hge]; [reflexivity|].
    change (10 ^ Z.of_nat 1) with 10 in Hn; lia.
  - change (fmt.fmtInteger (S (S (S fuel))) n acc)
      with (let acc' := byte_of_Z (48 + n mod 10) :: acc in
            if n <? 10 then acc'
            else fmt.fmtInteger (S (S fuel)) (n / 10) acc').
    change (fmt.fmtInteger (S (S fuel)) n acc)
      with (let acc' := byte_of_Z (48 + n mod 10) :: acc in
            if n <? 10 then acc'
            else fmt.fmtInteger (S fuel) (n / 10) acc').
    cbv zeta; destruct (Z.ltb_spec n 10) as [_|Hge]; [reflexivity|].
    apply IH.
    rewrite Nat2Z.inj_succ, Z.pow_succ_r in Hn by lia.
    split; [apply Z.div_pos; lia|].
    apply Z.div_lt_upper_bound; lia.
Qed.

(** One more decimal digit on a positive number is one more byte on its
    text. *)
Lemma Sprintf_d_append_digit (t d : Z) :
  0 < t -> 0 <= d <= 9 -> 10 * t + d < 2 ^ 63 ->
  fmt.Sprintf_d (10 * t + d) = fmt.Sprintf_d t ++ [byte_of_Z (48 + d)].
Proof.
  intros Ht Hd Hmax; unfold fmt.Sprintf_d.
  destruct (Z.ltb_spec (10 * t + d) 0) as [Hneg|_]; [lia|].
  destruct (Z.ltb_spec t 0) as [Hneg|_]; [lia|].
  change (fmt.fmtInteger 20 (10 * t + d) [])
    with (let acc' := [byte_of_Z (48 + (10 * t + d) mod 10)] in
          if 10 * t + d <? 10 then acc'
          else fmt.fmtInteger 19 ((10 * t + d) / 10) acc').
  cbv zeta; destruct (Z.ltb_spec (10 * t + d) 10) as [Hlt|_]; [lia|].
  replace ((10 * t + d) mod 10) with d
    by (rewrite Z.add_comm, Z.mul_comm, Z.mod_add, Z.mod_small; lia).
  replace ((10 * t + d) / 10) with t
    by (rewrite Z.add_comm, Z.mul_comm, Z.div_add, Z.div_small; lia).
  rewrite fmtInteger_acc.
  rewrite (fmtInteger_fuel 18 t []); [reflexivity|].
  assert (2 ^ 63 < 10 ^ Z.of_nat 19) by (vm_compute; reflexivity).
  lia.
Qed.

Section RequestMessage.
Variable hmac_sha256 : list byte -> list byte -> list byte.
Variable URLEncoding_DecodeString : list byte -> list byte * option error.

Lemma BuildPolyHmacSignature_of_message (secret : list byte) (timestamp : Z)
    (method path : list byte) (body : option (list byte)) :
  BuildPolyHmacSignature hmac_sha256 URLEncoding_DecodeString
    secret timestamp method path body
  = map urlSafeChar
      (base64.StdEncoding_EncodeToString
         (hmac_sha256 (hmacKey URLEncoding_DecodeString secret)
                      (BuildMessage timestamp method path body))).
Proof.
  rewrite BuildPolyHmacSignature_eq, BuildMessage_canonical; reflexivity.
Qed.

(** The message has no separators: only the timestamp and the concatenation
    of method, path and body count.  Two requests that split the same bytes
    differently between method, path and body get the same message and the
    same tag. *)
Theorem tag_ignores_field_boundaries :
  forall (secret : list byte) (timestamp : Z)
         (method1 path1 method2 path2 : list byte)
         (body1 body2 : option (list byte)),
    method1 ++ path1 ++ bodyBytes body1 = method2 ++ path2 ++ bodyBytes body2 ->
    BuildMessage timestamp method1 path1 body1
    = BuildMessage timestamp method2 path2 body2
    /\ BuildPolyHmacSignature hmac_sha256 URLEncoding_DecodeString
         secret timestamp method1 path1 body1
       = BuildPolyHmacSignature hmac_sha256 URLEncoding_DecodeString
           secret timestamp method2 path2 body2.
Proof.
  intros secret timestamp m1 p1 m2 p2 b1 b2 Heq.
  assert (Hm : BuildMessage timestamp m1 p1 b1 = BuildMessage timestamp m2 p2 b2).
  { rewrite !BuildMessage_canonical; unfold canonicalMessage.
    fold (bodyBytes b1); fold (bodyBytes b2); rewrite Heq; reflexivity. }
  split; [exact Hm|].
  rewrite !BuildPolyHmacSignature_of_message, Hm; reflexivity.
Qed.

(** Nor is the timestamp delimited from the method: the last digit of a
    timestamp of two digits or more can move to the front of the method
    without changing the message or the tag. *)
Theorem tag_ignores_timestamp_boundary :
  forall (secret : list byte) (t d : Z) (method path : list byte)
         (body : option (list byte)),
    0 < t -> 0 <= d <= 9 -> 10 * t + d < 2 ^ 63 ->
    BuildMessage (10 * t + d) method path body
    = BuildMessage t (byte_of_Z (48 + d) :: method) path body
    /\ BuildPolyHmacSignature hmac_sha256 URLEncoding_DecodeString
         secret (10 * t + d) method path body
       = BuildPolyHmacSignature hmac_sha256 URLEncoding_DecodeString
           secret t (byte_of_Z (48 + d) :: method) path body.
Proof.
  intros secret t d method path body Ht Hd Hmax.
  assert (Hm : BuildMessage (10 * t + d) method path body
               = BuildMessage t (byte_of_Z (48 + d) :: method) path body).
  { rewrite !BuildMessage_canonical; unfold canonicalMessage.
    rewrite Sprintf_d_append_digit by assumption.
    rewrite <- app_assoc; reflexivity. }
  split; [exact Hm|].
  rewrite !BuildPolyHmacSignature_of_message, Hm; reflexivity.
Qed.

End RequestMessage.

(** ** The alphabet of the tag *)

Lemma sextet_index (val shift : Z) :
  (Z.to_nat (Z.land (Z.shiftr val shift) 0x3F) < 64)%nat.
Proof.
  assert (Hr : 0 <= Z.land (Z.shiftr val shift) 0x3F < 64).
  { split.
    - apply Z.land_nonneg; right; lia.
    - change 0x3F with (Z.ones 6). rewrite Z.land_ones by lia.
      apply Z.mod_pos_bound; lia. }
  lia.
Qed.

Lemma sextet_isURLChar (val shift : Z) :
  isURLChar (base64.sextet base64.encodeURL val shift) = true.
Proof.
  unfold base64.sextet.
  pose proof (sextet_index val shift) as Hi.
  set (i := Z.to_nat (Z.land (Z.shiftr val shift) 0x3F)) in *.
  clearbody i.
  do 64 (destruct i as [|i]; [reflexivity|]); lia.
Qed.

Lemma url_encoding_of_32_bytes (mac : list byte) :
  length mac = 32%nat ->
  let text := base64.URLEncoding_EncodeToString mac in
  length text = 44%nat
  /\ nth 43 text x00 = base64.StdPadding
  /\ forallb isURLChar (firstn 43 text) = true.
Proof.
  intros Hlen.
  do 32 (destruct mac as [|? mac]; [discriminate Hlen|]).
  destruct mac; [|discriminate Hlen].
  unfold base64.URLEncoding_EncodeToString.
  cbn [base64.EncodeToString].
  split; [reflexivity|split; [reflexivity|]].
  cbn [firstn forallb].
  rewrite !sextet_isURLChar; reflexivity.
Qed.

(** ** Decoding the secret *)

Lemma land_shiftl_low (hi lo n : Z) :
  0 <= n -> 0 <= lo < 2 ^ n -> Z.land (Z.shiftl hi n) lo = 0.
Proof.
  intros Hn Hlo.
  apply Z.bits_inj'; intros k Hk; rewrite Z.land_spec, Z.bits_0.
  destruct (Z.lt_ge_cases k n) as [Hlt|Hge].
  - rewrite Z.shiftl_spec_low by lia; reflexivity.
  - replace lo with (lo mod 2 ^ n) by (apply Z.mod_small; lia).
    rewrite Z.mod_pow2_bits_high by lia. apply andb_false_r.
Qed.

Lemma lor_shiftl_add (hi lo n : Z) :
  0 <= n -> 0 <= lo < 2 ^ n -> Z.lor (Z.shiftl hi n) lo = hi * 2 ^ n + lo.
Proof.
  intros Hn Hlo.
  rewrite <- Z.lxor_lor, <- Z.add_nocarry_lxor by (apply land_shiftl_low; lia).
  rewrite Z.shiftl_mul_pow2 by lia; reflexivity.
Qed.

Lemma byte_of_Z_mod (z : Z) : byte_of_Z (z mod 256) = byte_of_Z z.
Proof. unfold byte_of_Z; rewrite Z.mod_mod by lia; reflexivity. Qed.

(** The 24-bit value of three bytes, as the encoder builds it. *)
Lemma quantum_value (a b c : byte) :
  Z.lor (Z.lor (Z.shiftl (byte_to_Z a) 16) (Z.shiftl (byte_to_Z b) 8))
        (byte_to_Z c)
  = byte_to_Z a * 65536 + byte_to_Z b * 256 + byte_to_Z c.
Proof.
  pose proof (byte_to_Z_range a); pose proof (byte_to_Z_range b);
    pose proof (byte_to_Z_range c).
  rewrite (Z.shiftl_mul_pow2 (byte_to_Z b)) by lia.
  rewrite lor_shiftl_add by (change (2 ^ 16) with 65536; change (2 ^ 8) with 256; lia).
  change (2 ^ 16) with 65536; change (2 ^ 8) with 256.
  replace (byte_to_Z a * 65536 + byte_to_Z b * 256)
    with (Z.shiftl (byte_to_Z a * 256 + byte_to_Z b) 8)
    by (rewrite Z.shiftl_mul_pow2 by lia; change (2 ^ 8) with 256; lia).
  rewrite lor_shiftl_add by (change (2 ^ 8) with 256; lia).
  rewrite Z.shiftl_mul_pow2 by lia; reflexivity.
Qed.

(** The four 6-bit values of a 24-bit value put together again. *)
Lemma quantum_of_sextets (A B C : Z) :
  0 <= A < 256 -> 0 <= B < 256 -> 0 <= C < 256 ->
  let val := A * 65536 + B * 256 + C in
  base64d.quantum (Z.land (Z.shiftr val 18) 0x3F) (Z.land (Z.shiftr val 12) 0x3F)
                  (Z.land (Z.shiftr val 6) 0x3F) (Z.land (Z.shiftr val 0) 0x3F)
  = [byte_of_Z A; byte_of_Z B; byte_of_Z C].
Proof.
  intros HA HB HC val; unfold base64d.quantum.
  change 0x3F with (Z.ones 6).
  rewrite !Z.land_ones, !Z.shiftr_div_pow2 by lia.
  change (2 ^ 18) with 262144; change (2 ^ 12) with 4096.
  change (2 ^ 6) with 64; change (2 ^ 0) with 1.
  rewrite Z.div_1_r.
  set (s0 := (val / 262144) mod 64); set (s1 := (val / 4096) mod 64).
  set (s2 := (val / 64) mod 64); set (s3 := val mod 64).
  assert (H0 : 0 <= s0 < 64) by (apply Z.mod_pos_bound; lia).
  assert (H1 : 0 <= s1 < 64) by (apply Z.mod_pos_bound; lia).
  assert (H2 : 0 <= s2 < 64) by (apply Z.mod_pos_bound; lia).
  assert (H3 : 0 <= s3 < 64) by (apply Z.mod_pos_bound; lia).
  assert (Hval : s0 * 262144 + s1 * 4096 + s2 * 64 + s3 = val).
  { subst s0 s1 s2 s3 val. Z.div_mod_to_equations; lia. }
  rewrite (Z.shiftl_mul_pow2 s1), (Z.shiftl_mul_pow2 s2) by lia.
  change (2 ^ 12) with 4096; change (2 ^ 6) with 64.
  rewrite (lor_shiftl_add s0 (s1 * 4096) 18)
    by (change (2 ^ 18) with 262144; lia).
  change (2 ^ 18) with 262144.
  replace (s0 * 262144 + s1 * 4096) with (Z.shiftl (s0 * 64 + s1) 12)
    by (rewrite Z.shiftl_mul_pow2 by lia; change (2 ^ 12) with 4096; lia).
  rewrite (lor_shiftl_add _ (s2 * 64) 12) by (change (2 ^ 12) with 4096; lia).
  change (2 ^ 12) with 4096.
  replace ((s0 * 64 + s1) * 4096 + s2 * 64)
    with (Z.shiftl ((s0 * 64 + s1) * 64 + s2) 6)
    by (rewrite Z.shiftl_mul_pow2 by lia; change (2 ^ 6) with 64; lia).
  rewrite (lor_shiftl_add _ s3 6) by (change (2 ^ 6) with 64; lia).
  change (2 ^ 6) with 64.
  replace (((s0 * 64 + s1) * 64 + s2) * 64 + s3) with val by lia.
  change (2 ^ 16) with 65536; change (2 ^ 8) with 256.
  rewrite <- (byte_of_Z_mod (val / 65536)), <- (byte_of_Z_mod (val / 256)),
    <- (byte_of_Z_mod val).
  replace ((val / 65536) mod 256) with A
    by (subst val; Z.div_mod_to_equations; lia).
  replace ((val / 256) mod 256) with B
    by (subst val; Z.div_mod_to_equations; lia).
  replace (val mod 256) with C
    by (subst val; Z.div_mod_to_equations; lia).
  reflexivity.
Qed.

Lemma decodeMap_sextet (val shift : Z) :
  base64d.decodeMap base64.encodeURL (base64.sextet base64.encodeURL val shift)
  = Some (Z.land (Z.shiftr val shift) 0x3F).
Proof.
  unfold base64.sextet.
  pose proof (sextet_index val shift) as Hi.
  assert (Hnn : 0 <= Z.land (Z.shiftr val shift) 0x3F)
    by (apply Z.land_nonneg; right; lia).
  rewrite <- (Z2Nat.id (Z.land (Z.shiftr val shift) 0x3F)) at 2 by exact Hnn.
  set (i := Z.to_nat (Z.land (Z.shiftr val shift) 0x3F)) in *.
  clearbody i; clear Hnn.
  do 64 (destruct i as [|i]; [reflexivity|]); lia.
Qed.

Lemma decodeMap_isURLChar (c : byte) :
  isURLChar c = true ->
  exists out, base64d.decodeMap base64.encodeURL c = Some out.
Proof.
  destruct c; try discriminate; intros _; eexists; reflexivity.
Qed.

Lemma decodeMap_not_URLChar (c : byte) :
  isURLChar c = false -> base64d.decodeMap base64.encodeURL c = None.
Proof. destruct c; try discriminate; intros _; reflexivity. Qed.

(** A full quantum: four characters written for three bytes are read back as
    the three bytes. *)
Lemma decode_quantum (a b c : byte) (rest : list byte) :
  let val := Z.lor (Z.lor (Z.shiftl (byte_to_Z a) 16)
                          (Z.shiftl (byte_to_Z b) 8)) (byte_to_Z c) in
  base64d.decode base64.encodeURL []
    (base64.sextet base64.encodeURL val 18
     :: base64.sextet base64.encodeURL val 12
     :: base64.sextet base64.encodeURL val 6
     :: base64.sextet base64.encodeURL val 0 :: rest)
  = let '(bs, e) := base64d.decode base64.encodeURL [] rest in
    (a :: b :: c :: bs, e).
Proof.
  intros val.
  cbn [base64d.decode]; rewrite decodeMap_sextet; cbn [app].
  cbn [base64d.decode]; rewrite decodeMap_sextet; cbn [app].
  cbn [base64d.decode]; rewrite decodeMap_sextet; cbn [app].
  cbn [base64d.decode]; rewrite decodeMap_sextet.
  subst val; rewrite quantum_value.
  rewrite quantum_of_sextets by apply byte_to_Z_range.
  rewrite !byte_of_to_Z.
  destruct (base64d.decode base64.encodeURL [] rest); reflexivity.
Qed.

(** The last quantum of two bytes: three characters and one padding. *)
Lemma decode_two_bytes (a b : byte) :
  let val := Z.lor (Z.shiftl (byte_to_Z a) 16) (Z.shiftl (byte_to_Z b) 8) in
  base64d.decode base64.encodeURL []
    [base64.sextet base64.encodeURL val 18;
     base64.sextet base64.encodeURL val 12;
     base64.sextet base64.encodeURL val 6; base64.StdPadding]
  = ([a; b], None).
Proof.
  intros val.
  cbn [base64d.decode]; rewrite decodeMap_sextet; cbn [app].
  cbn [base64d.decode]; rewrite decodeMap_sextet; cbn [app].
  cbn [base64d.decode]; rewrite decodeMap_sextet; cbn [app].
  cbn [base64d.decode].
  change (base64d.decodeMap base64.encodeURL base64.StdPadding) with (@None Z).
  change (base64d.isNewline base64.StdPadding) with false.
  change (byte_eqb base64.StdPadding base64.StdPadding) with true.
  cbn [negb base64d.skipNewlines].
  assert (Hval : val = byte_to_Z a * 65536 + byte_to_Z b * 256 + byte_to_Z x00).
  { rewrite <- quantum_value. subst val.
    change (byte_to_Z x00) with 0; rewrite Z.lor_0_r; reflexivity. }
  assert (H0 : 0 = Z.land (Z.shiftr val 0) 0x3F).
  { rewrite Hval; change (byte_to_Z x00) with 0.
    change 0x3F with (Z.ones 6); rewrite Z.land_ones, Z.shiftr_0_r by lia.
    change (2 ^ 6) with 64.
    pose proof (byte_to_Z_range a); pose proof (byte_to_Z_range b).
    Z.div_mod_to_equations; lia. }
  match goal with
  | |- context [base64d.quantum ?x ?y ?z 0] =>
      replace (base64d.quantum x y z 0)
        with (base64d.quantum x y z (Z.land (Z.shiftr val 0) 0x3F))
        by (rewrite <- H0; reflexivity)
  end.
  rewrite Hval.
  rewrite quantum_of_sextets by apply byte_to_Z_range.
  rewrite !byte_of_to_Z; reflexivity.
Qed.

(** The last quantum of one byte: two characters and two paddings. *)
Lemma decode_one_byte (a : byte) :
  let val := Z.shiftl (byte_to_Z a) 16 in
  base64d.decode base64.encodeURL []
    [base64.sextet base64.encodeURL val 18;
     base64.sextet base64.encodeURL val 12;
     base64.StdPadding; base64.StdPadding]
  = ([a], None).
Proof.
  intros val.
  cbn [base64d.decode]; rewrite decodeMap_sextet; cbn [app].
  cbn [base64d.decode]; rewrite decodeMap_sextet; cbn [app].
  cbn [base64d.decode].
  change (base64d.decodeMap base64.encodeURL base64.StdPadding) with (@None Z).
  change (base64d.isNewline base64.StdPadding) with false.
  change (byte_eqb base64.StdPadding base64.StdPadding) with true.
  cbn [negb base64d.skipNewlines].
  change (base64d.isNewline base64.StdPadding) with false.
  change (byte_eqb base64.StdPadding base64.StdPadding) with true.
  cbn [negb base64d.skipNewlines].
  assert (Hval : val = byte_to_Z a * 65536 + byte_to_Z x00 * 256 + byte_to_Z x00).
  { subst val. rewrite Z.shiftl_mul_pow2 by lia.
    change (byte_to_Z x00) with 0; change (2 ^ 16) with 65536; lia. }
  pose proof (byte_to_Z_range a).
  assert (H6 : 0 = Z.land (Z.shiftr val 6) 0x3F).
  { rewrite Hval; change (byte_to_Z x00) with 0.
    change 0x3F with (Z.ones 6); rewrite Z.land_ones, Z.shiftr_div_pow2 by lia.
    change (2 ^ 6) with 64. Z.div_mod_to_equations; lia. }
  assert (H0 : 0 = Z.land (Z.shiftr val 0) 0x3F).
  { rewrite Hval; change (byte_to_Z x00) with 0.
    change 0x3F with (Z.ones 6); rewrite Z.land_ones, Z.shiftr_0_r by lia.
    change (2 ^ 6) with 64. Z.div_mod_to_equations; lia. }
  match goal with
  | |- context [base64d.quantum ?x ?y 0 0] =>
      replace (base64d.quantum x y 0 0)
        with (base64d.quantum x y (Z.land (Z.shiftr val 6) 0x3F)
                (Z.land (Z.shiftr val 0) 0x3F))
        by (rewrite <- H6, <- H0; reflexivity)
  end.
  rewrite Hval.
  rewrite quantum_of_sextets by apply byte_to_Z_range.
  rewrite !byte_of_to_Z; reflexivity.
Qed.

Lemma url_decode_encode_steps (src : list byte) :
  base64d.URLEncoding_DecodeString (base64.URLEncoding_EncodeToString src)
  = (src, None)
  /\ (forall a,
        base64d.URLEncoding_DecodeString
          (base64.URLEncoding_EncodeToString (a :: src)) = (a :: src, None))
  /\ (forall a b,
        base64d.URLEncoding_DecodeString
          (base64.URLEncoding_EncodeToString (a :: b :: src))
        = (a :: b :: src, None)).
Proof.
  unfold base64d.URLEncoding_DecodeString, base64.URLEncoding_EncodeToString.
  induction src as [|c src [IH0 [IH1 IH2]]].
  - split; [reflexivity|split].
    + intros a; apply decode_one_byte.
    + intros a b; apply decode_two_bytes.
  - split; [apply IH1|split; [intros a; apply IH2|]].
    intros a b.
    change (base64.EncodeToString base64.encodeURL (a :: b :: c :: src))
      with (let val := Z.lor (Z.lor (Z.shiftl (byte_to_Z a) 16)
                                    (Z.shiftl (byte_to_Z b) 8)) (byte_to_Z c) in
            base64.sextet base64.encodeURL val 18
            :: base64.sextet base64.encodeURL val 12
            :: base64.sextet base64.encodeURL val 6
            :: base64.sextet base64.encodeURL val 0
            :: base64.EncodeToString base64.encodeURL src).
    cbv zeta; rewrite decode_quantum, IH0; reflexivity.
Qed.

(** Reading what [base64.URLEncoding] wrote gives the bytes back. *)
Lemma url_decode_encode (src : list byte) :
  base64d.URLEncoding_DecodeString (base64.URLEncoding_EncodeToString src)
  = (src, None).
Proof. apply url_decode_encode_steps. Qed.

Lemma skipNewlines_foreign (s : list byte) :
  existsb isForeignChar s = true ->
  existsb isForeignChar (base64d.skipNewlines s) = true.
Proof.
  induction s as [|c s IH]; cbn [base64d.skipNewlines existsb]; [discriminate|].
  destruct (base64d.isNewline c) eqn:Hnl.
  - unfold isForeignChar at 1; rewrite Hnl, andb_false_r; exact IH.
  - cbn [existsb]; trivial.
Qed.

Lemma foreign_not_read (c : byte) :
  isForeignChar c = true ->
  base64d.decodeMap base64.encodeURL c = None
  /\ base64d.isNewline c = false /\ byte_eqb c base64.StdPadding = false.
Proof.
  unfold isForeignChar; intros Hc.
  apply andb_prop in Hc; destruct Hc as [Hc Hnl].
  apply andb_prop in Hc; destruct Hc as [Hurl Hpad].
  apply negb_true_iff in Hurl, Hpad, Hnl.
  auto using decodeMap_not_URLChar.
Qed.

(** A text with a byte the decoder neither reads nor passes over is
    refused. *)
Lemma decode_foreign (src : list byte) :
  forall dbuf,
    existsb isForeignChar src = true ->
    exists e, snd (base64d.decode base64.encodeURL dbuf src) = Some e.
Proof.
  induction src as [|c rest IH]; intros dbuf Hex; [discriminate|].
  cbn [existsb] in Hex; cbn [base64d.decode].
  destruct (isForeignChar c) eqn:Hc.
  - destruct (foreign_not_read c Hc) as [Hmap [Hnl Hpad]].
    rewrite Hmap, Hnl, Hpad; cbn [negb snd]; eauto.
  - cbn [orb] in Hex.
    destruct (base64d.decodeMap base64.encodeURL c) as [out|].
    + destruct dbuf as [|d0 [|d1 [|d2 [|d3 dbuf]]]];
        try (apply IH; exact Hex).
      destruct (IH [] Hex) as [e He].
      destruct (base64d.decode base64.encodeURL [] rest) as [bs e'].
      cbn [snd] in *; eauto.
    + destruct (base64d.isNewline c); [apply IH; exact Hex|].
      destruct (negb (byte_eqb c base64.StdPadding)); [cbn [snd]; eauto|].
      pose proof (skipNewlines_foreign rest Hex) as Hrest.
      destruct dbuf as [|d0 [|d1 [|d2 [|d3 dbuf]]]]; try (cbn [snd]; eauto).
      * destruct (base64d.skipNewlines rest) as [|c' rest'];
          [cbn [snd]; eauto|].
        destruct (negb (byte_eqb c' base64.StdPadding)) eqn:Hc';
          [cbn [snd]; eauto|].
        cbn [existsb] in Hrest.
        assert (Hfc' : isForeignChar c' = false).
        { unfold isForeignChar; rewrite Hc'.
          rewrite andb_false_r; reflexivity. }
        rewrite Hfc' in Hrest; cbn [orb] in Hrest.
        pose proof (skipNewlines_foreign rest' Hrest) as Hrest'.
        destruct (base64d.skipNewlines rest'); [discriminate|cbn [snd]; eauto].
      * destruct (base64d.skipNewlines rest); [discriminate|cbn [snd]; eauto].
Qed.

(** A text of alphabet characters only is read in groups of four: without
    padding it decodes only if its length is a multiple of four. *)
Lemma decode_unpadded (src : list byte) :
  forall dbuf,
    forallb isURLChar src = true ->
    snd (base64d.decode base64.encodeURL dbuf src) = None ->
    exists k, (length dbuf + length src = 4 * k)%nat.
Proof.
  induction src as [|c rest IH]; intros dbuf Hall Hok.
  - destruct dbuf; [exists 0%nat; reflexivity|discriminate].
  - cbn [forallb] in Hall; apply andb_prop in Hall; destruct Hall as [Hc Hall].
    destruct (decodeMap_isURLChar c Hc) as [out Hout].
    cbn [base64d.decode] in Hok; rewrite Hout in Hok.
    assert (Hnext : forall d, snd (base64d.decode base64.encodeURL d rest) = None ->
                              (length d = length dbuf + 1)%nat ->
                              exists k, (length dbuf + length (c :: rest) = 4 * k)%nat).
    { intros d Hd Hlen; destruct (IH d Hall Hd) as [k Hk].
      exists k; cbn [length]; lia. }
    destruct dbuf as [|d0 [|d1 [|d2 [|d3 dbuf]]]];
      try (apply (Hnext _ Hok); rewrite length_app; reflexivity).
    destruct (base64d.decode base64.encodeURL [] rest) as [bs e] eqn:Hd.
    cbn [snd] in Hok.
    assert (Hrest : snd (base64d.decode base64.encodeURL [] rest) = None)
      by (rewrite Hd; exact Hok).
    destruct (IH [] Hall Hrest) as [k Hk].
    exists (S k); cbn [length] in *; lia.
Qed.

Section SecretAsKey.
Variable hmac_sha256 : list byte -> list byte -> list byte.

Lemma tag_with_key (decode : list byte -> list byte * option error)
    (secret key : list byte) (timestamp : Z) (method path : list byte)
    (body : option (list byte)) :
  hmacKey decode secret = key ->
  BuildPolyHmacSignature hmac_sha256 decode secret timestamp method path body
  = base64.URLEncoding_EncodeToString
      (hmac_sha256 key (BuildMessage timestamp method path body)).
Proof.
  intros <-.
  rewrite BuildPolyHmacSignature_eq, std_to_url, BuildMessage_canonical.
  reflexivity.
Qed.

(** A secret that is the padded URL-safe base64 text of some bytes is decoded:
    the MAC is keyed with those bytes. *)
Theorem encoded_secret_is_decoded :
  forall (key : list byte) (timestamp : Z) (method path : list byte)
         (body : option (list byte)),
    BuildPolyHmacSignature hmac_sha256 base64d.URLEncoding_DecodeString
      (base64.URLEncoding_EncodeToString key) timestamp method path body
    = base64.URLEncoding_EncodeToString
        (hmac_sha256 key (BuildMessage timestamp method path body)).
Proof.
  intros key timestamp method path body.
  apply tag_with_key; unfold hmacKey; rewrite url_decode_encode; reflexivity.
Qed.

(** A secret that does not decode is used as it is, silently: so it is with
    a secret holding a byte outside the URL-safe alphabet (a [+] or [/] of
    standard base64, say), and with an unpadded secret whose length is not a
    multiple of four. *)
Theorem undecodable_secret_is_used_raw :
  forall (secret : list byte) (timestamp : Z) (method path : list byte)
         (body : option (list byte)),
    existsb isForeignChar secret = true
    \/ (forallb isURLChar secret = true /\ (length secret mod 4 <> 0)%nat) ->
    BuildPolyHmacSignature hmac_sha256 base64d.URLEncoding_DecodeString
      secret timestamp method path body
    = base64.URLEncoding_EncodeToString
        (hmac_sha256 secret (BuildMessage timestamp method path body)).
Proof.
  intros secret timestamp method path body Hs.
  apply tag_with_key; unfold hmacKey, base64d.URLEncoding_DecodeString.
  destruct Hs as [Hf|[Hall Hlen]].
  - destruct (decode_foreign secret [] Hf) as [e He].
    destruct (base64d.decode base64.encodeURL [] secret) as [b e'].
    cbn [snd] in He; subst e'; reflexivity.
  - pose proof (decode_unpadded secret [] Hall) as Hd.
    destruct (base64d.decode base64.encodeURL [] secret) as [b [e|]];
      [reflexivity|].
    exfalso; apply Hlen; apply Nat.Div0.mod_divides.
    destruct (Hd eq_refl) as [k Hk]; exists k; exact Hk.
Qed.

(** With a MAC of 32 bytes, as HMAC-SHA256 gives, the tag is 44 characters:
    43 of the URL-safe alphabet and one [=] at the end. *)
Theorem tag_shape :
  forall (decode : list byte -> list byte * option error)
         (secret : list byte) (timestamp : Z) (method path : list byte)
         (body : option (list byte)),
    length (hmac_sha256 (hmacKey decode secret)
              (BuildMessage timestamp method path body)) = 32%nat ->
    let tag := BuildPolyHmacSignature hmac_sha256 decode
                 secret timestamp method path body in
    length tag = 44%nat
    /\ nth 43 tag x00 = base64.StdPadding
    /\ forallb isURLChar (firstn 43 tag) = true.
Proof.
  intros decode secret timestamp method path body Hlen tag; subst tag.
  rewrite (tag_with_key decode secret _ timestamp method path body eq_refl).
  apply url_encoding_of_32_bytes; exact Hlen.
Qed.

End SecretAsKey.

Section CanonicalVersusRaw.
Context `{Crypto}.

(** The canonical signature and the wallet's plain signature of the same
    digest are the same 64 bytes of r and s; they differ in the last byte
    only, which the canonical path raises by 27. *)
Theorem canonical_signature_is_SignHash_plus_27 :
  Sign_format ->
  forall (w : Wallet) (chainID timestamp nonce : Z) (hash sig0 : list byte),
    clobAuthHash (privateKey w) chainID timestamp nonce = Ok hash ->
    Sign hash (privateKey w) = Ok sig0 ->
    SignHash w hash = Ok (hexutil.Encode sig0)
    /\ BuildClobEip712Signature (privateKey w) chainID timestamp nonce
       = Ok (hexutil.Encode
               (firstn 64 sig0 ++ [add8 (nth 64 sig0 x00) 27])).
Proof.
  intros Hfmt w chainID timestamp nonce hash sig0 Hh Hsign.
  destruct (Hfmt hash (privateKey w) sig0 Hsign) as [Hlen Hv].
  split.
  - unfold SignHash; rewrite Hsign; reflexivity.
  - unfold BuildClobEip712Signature; rewrite Hh; cbn [wrapErr bind].
    rewrite Hsign; cbn [wrapErr bind]; unfold adjustV.
    rewrite (nth_error_nth' sig0 x00) by lia.
    assert (Hlt : (byte_to_Z (nth 64 sig0 x00) <? 27) = true)
      by (destruct Hv as [Hv|Hv]; rewrite Hv; reflexivity).
    rewrite Hlt; cbn [bind]; unfold set_nth.
    rewrite (skipn_all2 sig0) by lia; reflexivity.
Qed.

End CanonicalVersusRaw.

(** ** The further theorems at concrete inputs *)

Lemma ValidateAddress_accepts_address_text_witness :
  ValidateAddress (common.Hex sampleAddress) = Ok tt
  /\ ValidateAddress (hexutil.Encode sampleAddress) = Ok tt.
Proof.
  exact (ValidateAddress_accepts_address_text sampleAddress eq_refl).
Defined.

Lemma private_key_hex_round_trip_witness :
  @HexToPrivateKey stubCrypto stubKeyCodec (@PrivateKeyToHex stubCrypto stubKeyCodec 7)
  = Ok 7
  /\ @ValidatePrivateKey stubCrypto stubKeyCodec
       (@PrivateKeyToHex stubCrypto stubKeyCodec 7) = Ok tt
  /\ @NewWalletFromHex stubCrypto stubKeyCodec
       (@PrivateKeyToHex stubCrypto stubKeyCodec 7)
     = Ok (@NewWalletFromPrivateKey stubCrypto 7).
Proof.
  refine (@private_key_hex_round_trip stubCrypto stubKeyCodec 7 _).
  vm_compute; reflexivity.
Defined.

Lemma encodeClobAuthData_slots_witness :
  exists enc,
    encodeClobAuthData (ClobAuthData.mk (str "not an address") (str "1700000000")
                          0 MSG_TO_SIGN) = Ok enc
    /\ length enc = 128%nat
    /\ enc = (repeat x00 12 ++ common.HexToAddress (str "not an address"))
             ++ Keccak256 (str "1700000000") ++ be32 0 ++ Keccak256 MSG_TO_SIGN.
Proof.
  refine (encodeClobAuthData_slots
            (ClobAuthData.mk (str "not an address") (str "1700000000")
               0 MSG_TO_SIGN) _).
  unfold in_uint64; cbn [ClobAuthData.Nonce]; lia.
Defined.

Lemma getTypedDataHash_framing_witness :
  exists messageHash,
    getMessageHash sampleTypedData = Ok messageHash
    /\ getTypedDataHash sampleTypedData
       = Ok (signingDigestOf
               (domainSeparatorOf (str "ClobAuthDomain") (str "1") (Z.abs 137))
               messageHash).
Proof.
  exists (Keccak256 (json.reflectValue (TypedData.Message sampleTypedData))).
  split; [reflexivity|].
  refine (proj1 (@getTypedDataHash_framing stubCrypto sampleTypedData _ 7 _ eq_refl)).
  unfold in_int64; cbn [sampleTypedData TypedData.Domain EIP712Domain.ChainID]; lia.
Defined.

Lemma tag_ignores_field_boundaries_witness :
  BuildMessage 1700000000 (str "GET") (str "/orders") None
  = BuildMessage 1700000000 (str "GE") (str "T/ord") (Some (str "ers")).
Proof.
  refine (proj1 (tag_ignores_field_boundaries stubHmac
                   base64d.URLEncoding_DecodeString (str "c29tZXNlY3JldA==")
                   1700000000 (str "GET") (str "/orders") (str "GE") (str "T/ord")
                   None (Some (str "ers")) _)).
  reflexivity.
Defined.

Lemma tag_ignores_timestamp_boundary_witness :
  BuildMessage 1700000000 (str "GET") (str "/orders") None
  = BuildMessage 170000000 (str "0GET") (str "/orders") None.
Proof.
  refine (proj1 (tag_ignores_timestamp_boundary stubHmac
                   base64d.URLEncoding_DecodeString (str "c29tZXNlY3JldA==")
                   170000000 0 (str "GET") (str "/orders") None _ _ _)); lia.
Defined.

Lemma undecodable_secret_is_used_raw_witness :
  BuildPolyHmacSignature stubHmac base64d.URLEncoding_DecodeString
    (str "Pj4+Pz8/Pj4=") 1700000000 (str "GET") (str "/orders") None
  = base64.URLEncoding_EncodeToString
      (stubHmac (str "Pj4+Pz8/Pj4=")
         (BuildMessage 1700000000 (str "GET") (str "/orders") None)).
Proof.
  refine (undecodable_secret_is_used_raw stubHmac (str "Pj4+Pz8/Pj4=")
            1700000000 (str "GET") (str "/orders") None _).
  left; vm_compute; reflexivity.
Defined.

Lemma tag_shape_witness :
  let tag := BuildPolyHmacSignature stubHmac base64d.URLEncoding_DecodeString
               (str "c29tZXNlY3JldA==") 1700000000 (str "GET") (str "/orders")
               None in
  length tag = 44%nat
  /\ nth 43 tag x00 = base64.StdPadding
  /\ forallb isURLChar (firstn 43 tag) = true.
Proof.
  refine (tag_shape stubHmac base64d.URLEncoding_DecodeString
            (str "c29tZXNlY3JldA==") 1700000000 (str "GET") (str "/orders")
            None _).
  apply Keccak256_length.
Defined.

Lemma canonical_signature_is_SignHash_plus_27_witness :
  exists hash sig0,
    @SignHash stubCrypto sampleWallet hash = Ok (hexutil.Encode sig0)
    /\ @BuildClobEip712Signature stubCrypto 1 137 1700000000 0
       = Ok (hexutil.Encode (firstn 64 sig0 ++ [add8 (nth 64 sig0 x00) 27])).
Proof.
  assert (Hh : exists hash, @clobAuthHash stubCrypto 1 137 1700000000 0 = Ok hash)
    by (vm_compute; eexists; reflexivity).
  destruct Hh as [hash Hh].
  assert (Hs : exists sig0, @Sign stubCrypto hash 1 = Ok sig0).
  { assert (Hlen : length hash = 32%nat).
    { revert Hh; unfold clobAuthHash.
      destruct (wrapErr _ (getDomainSeparator _)); try discriminate.
      destruct (wrapErr _ (getTypeHash _)); try discriminate.
      destruct (wrapErr _ (encodeClobAuthData _)); try discriminate.
      cbn [bind]; intros Heq; injection Heq as <-; apply Keccak256_length. }
    cbn [Sign stubCrypto]; rewrite Hlen; eexists; reflexivity. }
  destruct Hs as [sig0 Hs].
  exists hash, sig0.
  exact (@canonical_signature_is_SignHash_plus_27 stubCrypto stub_Sign_format
           sampleWallet 137 1700000000 0 hash sig0 Hh Hs).
Defined.
